(** * Better-PITR: the PITR pipeline of [pitr/pitr.go]

    A shallow embedding of [pitr.go] and the properties of its
    orchestration: window acceptance, schema-history resolution (flat
    schema file or history DDL jobs read from a TiKV snapshot), the DDL
    execution handler and the [Process] state machine.

    The functions of [pitr.go] call into the file system, the store
    cluster, the schema catalog ([ddlHandle]) and the merge engine.  None
    of that code is in [pitr.go]; it is taken here as a record of
    collaborators acting on an abstract world.  A run returns its result,
    the final process state and the list of calls it made, each with the
    answer it got. *)

From stdpp Require Import gmap strings list pretty.
From Stdlib Require Import ZArith Ascii Sorted Permutation.

Local Open Scope Z_scope.

(** ** Errors ([github.com/pingcap/errors]) *)

(** A Go [error] is [option error]: [None] is [nil]. *)
Inductive error : Type :=
| ErrNew (msg : string)
| ErrAnnotate (cause : error) (msg : string)
| ErrTrace (cause : error).

(** [errors.Annotate]: "if err == nil { return nil }", otherwise the
    error wrapped with the message. *)
Definition Annotate (err : option error) (msg : string) : option error :=
  match err with
  | None => None
  | Some e => Some (ErrAnnotate e msg)
  end.

(** [errors.Trace]: [nil] stays [nil], otherwise a stack is attached. *)
Definition Trace (err : option error) : option error :=
  match err with
  | None => None
  | Some e => Some (ErrTrace e)
  end.

(** ** Data *)

(** [model.HistoryInfo]: [SchemaVersion] is an [int64], [FinishedTS] a
    [uint64]. *)
Record HistoryInfo : Type := mkHistoryInfo {
  SchemaVersion : Z;
  FinishedTS : Z
}.

(** [model.Job], with the fields the pipeline reads. *)
Record Job : Type := mkJob {
  ID : Z;
  Query : string;
  BinlogInfo : HistoryInfo
}.

(** [pb.Binlog], with its two timestamps ([int64]). *)
Record Binlog : Type := mkBinlog {
  StartTs : Z;
  CommitTs : Z
}.

(** The conversion [int64(x)] of a [uint64]: the same 64 bits read as a
    two's complement number. *)
Definition int64_of_uint64 (u : Z) : Z :=
  if u <? 2 ^ 63 then u else u - 2 ^ 64.

(** The fields of [Config] that [pitr.go] reads. *)
Record Config : Type := mkConfig {
  Dir : string;
  StartTSO : Z;
  StopTSO : Z;
  PDURLs : string;
  schemaFile : string;
  reserveTempDir : bool
}.

Record PITR : Type := mkPITR { cfg : Config }.

(** [historyDDLHandler].  A [nil] slice and an empty one are both [[]]:
    the code only takes [len] of them and ranges over them. *)
Record historyDDLHandler : Type := mkHandler {
  ddlSQLs : list string;
  ddlJobs : list Job
}.

(** [flags.URLsValue]: the parsed URLs, of which only the hosts are used. *)
Record URLsValue : Type := mkURLs { hosts : list string }.

(** [URLsValue.HostString]: the hosts joined by commas. *)
Definition HostString (u : URLsValue) : string := String.concat "," (hosts u).

(** The drivers that can sit in the registry of package [store]. *)
Inductive Driver : Type := TikvDriver.

(** ** Calls of a run *)

(** One entry per call that leaves [pitr.go], with the answer; [EvExecute]
    marks an entry into [historyDDLHandler.execute]. *)
Inductive Event : Type :=
| EvSearchFiles (dir : string) (files : list string) (err : option error)
| EvFilterFiles (files : list string) (startTSO stopTSO : Z)
    (kept : list string) (fileSize : Z) (err : option error)
| EvGetFirstBinlogCommitTS (file : string) (ts : Z) (err : option error)
| EvReadFile (path : string) (content : string) (err : option error)
| EvRegister (name : string) (err : option error)
| EvStoreNew (path : string) (err : option error)
| EvCurrentVersion (err : option error)
| EvGetSnapshot (err : option error)
| EvGetAllHistoryDDLJobs (jobs : list Job) (err : option error)
| EvStoreClose
| EvUnRegister (name : string)
| EvNewMerge (files : list string) (fileSize : Z) (err : option error)
| EvMergeClose (reserve : bool)
| EvExecute (h : historyDDLHandler)
| EvExecuteHistoryDDLs (jobs : list Job) (err : option error)
| EvExecuteDDL (schema ddl : string) (err : option error)
| EvMap (startTSO stopTSO : Z) (noEventIsFound : bool) (err : option error)
| EvReduce (err : option error)
| EvLogInfo (msg : string)
| EvLogIgnoreJob (job : Job).

(** Where a call goes. *)
Inductive Component : Type :=
| Shards | SchemaFile | StoreCluster | Catalog | MergeEngine | Logger.

Definition component (ev : Event) : Component :=
  match ev with
  | EvSearchFiles _ _ _ | EvFilterFiles _ _ _ _ _ _
  | EvGetFirstBinlogCommitTS _ _ _ => Shards
  | EvReadFile _ _ _ => SchemaFile
  | EvRegister _ _ | EvStoreNew _ _ | EvCurrentVersion _ | EvGetSnapshot _
  | EvGetAllHistoryDDLJobs _ _ | EvStoreClose | EvUnRegister _ => StoreCluster
  | EvExecute _ | EvExecuteHistoryDDLs _ _ | EvExecuteDDL _ _ _ => Catalog
  | EvNewMerge _ _ _ | EvMergeClose _ | EvMap _ _ _ _ | EvReduce _ => MergeEngine
  | EvLogInfo _ | EvLogIgnoreJob _ => Logger
  end.

(** The entries into [execute] among the calls of a run. *)
Definition is_execute (ev : Event) : bool :=
  match ev with EvExecute _ => true | _ => false end.

Definition executions (tr : list Event) : nat :=
  length (List.filter is_execute tr).

(** The enumerations of the history jobs among the calls. *)
Definition is_GetAllHistoryDDLJobs (ev : Event) : bool :=
  match ev with EvGetAllHistoryDDLJobs _ _ => true | _ => false end.

(** A call made before the merge exists: to the shards, the schema file,
    the store or the log. *)
Definition before_merge (ev : Event) : bool :=
  match component ev with
  | Catalog | MergeEngine => false
  | _ => true
  end.

(** The calls of [merge.Close] among the calls of a run. *)
Definition is_MergeClose (ev : Event) : bool :=
  match ev with EvMergeClose _ => true | _ => false end.

Definition closes (tr : list Event) : nat :=
  length (List.filter is_MergeClose tr).

(** The jobs logged as ignored, in the order of the log entries. *)
Fixpoint ignored_jobs (tr : list Event) : list Job :=
  match tr with
  | [] => []
  | EvLogIgnoreJob job :: tr' => job :: ignored_jobs tr'
  | _ :: tr' => ignored_jobs tr'
  end.

(** The error a call answered with: [None] for [nil], for the log
    entries and the entry into [execute], and for [tiStore.Close],
    [store.UnRegister] and [merge.Close], whose results [pitr.go] does
    not read. *)
Definition answered (ev : Event) : option error :=
  match ev with
  | EvSearchFiles _ _ err | EvFilterFiles _ _ _ _ _ err
  | EvGetFirstBinlogCommitTS _ _ err | EvReadFile _ _ err
  | EvRegister _ err | EvStoreNew _ err | EvCurrentVersion err
  | EvGetSnapshot err | EvGetAllHistoryDDLJobs _ err | EvNewMerge _ _ err
  | EvExecuteHistoryDDLs _ err | EvExecuteDDL _ _ err | EvMap _ _ _ err
  | EvReduce err => err
  | EvStoreClose | EvUnRegister _ | EvMergeClose _ | EvExecute _
  | EvLogInfo _ | EvLogIgnoreJob _ => None
  end.

Definition failed (ev : Event) : bool :=
  match answered ev with
  | Some _ => true
  | None => false
  end.

(** [err != nil]. *)
Definition is_error (err : option error) : bool :=
  match err with
  | Some _ => true
  | None => false
  end.

(** ** Library functions *)

(** [strings.Split(s, sep)] for a separator of one byte: the pieces of
    [s] between the occurrences of [sep], always at least one piece. *)
Fixpoint strings_Split (s : string) (sep : Ascii.ascii) : list string :=
  match s with
  | EmptyString => [EmptyString]
  | String c rest =>
      if Ascii.eqb c sep then EmptyString :: strings_Split rest sep
      else match strings_Split rest sep with
           | piece :: pieces => String c piece :: pieces
           | [] => [String c EmptyString]
           end
  end.

Definition newline : Ascii.ascii := "010"%char.

(** [strings.Join(pieces, sep)] for a separator of one byte. *)
Definition strings_Join (pieces : list string) (sep : Ascii.ascii) : string :=
  String.concat (String sep EmptyString) pieces.

(** [contains s c]: the byte [c] occurs in [s]. *)
Fixpoint contains (s : string) (c : Ascii.ascii) : bool :=
  match s with
  | EmptyString => false
  | String c' rest => Ascii.eqb c' c || contains rest c
  end.

(** The number of times [c] occurs in [s]. *)
Fixpoint occurrences (s : string) (c : Ascii.ascii) : nat :=
  match s with
  | EmptyString => 0
  | String c' rest =>
      (if Ascii.eqb c' c then 1 else 0) + occurrences rest c
  end%nat.

(** [sort.Slice]: its documentation promises a sorted permutation of the
    slice when [less] is a strict weak ordering (nothing is less than
    itself; if [less a b] and [less b c] then [less a c]; if neither
    [less a b] nor [less b c] then not [less a c]), and no more: equal
    elements may come out in any order.  The development is parametric in
    the sorting function and uses this contract only. *)
Definition strict_weak_ordering {A : Type} (less : A -> A -> bool) : Prop :=
  (forall a, less a a = false) /\
  (forall a b c, less a b = true -> less b c = true -> less a c = true) /\
  (forall a b c, less a b = false -> less b c = false -> less a c = false).

(** Ascending order as [less] sees it: no element is less than one
    before it. *)
Definition ascending {A : Type} (less : A -> A -> bool) (l : list A) : Prop :=
  StronglySorted (fun a b => less b a = false) l.

Class SliceSorter : Type := {
  sort_Slice : forall {A : Type}, list A -> (A -> A -> bool) -> list A;
  sort_Slice_Permutation :
    forall (A : Type) (x : list A) (less : A -> A -> bool),
      Permutation x (sort_Slice x less);
  sort_Slice_ascending :
    forall (A : Type) (x : list A) (less : A -> A -> bool),
      strict_weak_ordering less -> ascending less (sort_Slice x less)
}.

(** An insertion sort, one implementation of the contract. *)
Fixpoint insert_by {A : Type} (less : A -> A -> bool) (a : A) (l : list A)
  : list A :=
  match l with
  | [] => [a]
  | b :: l' => if less a b then a :: b :: l' else b :: insert_by less a l'
  end.

Fixpoint insertion_sort {A : Type} (x : list A) (less : A -> A -> bool)
  : list A :=
  match x with
  | [] => []
  | a :: x' => insert_by less a (insertion_sort x' less)
  end.

(** ** The process and its collaborators *)

Section Collaborators.
(** [World] is everything outside the process: the files, the store
    cluster, the schema catalog behind [ddlHandle], the work directory
    of the merge.  [Storage], [Version], [Snapshot] and [Merge] are the
    handles the process holds ([kv.Storage], [kv.Version],
    [kv.Snapshot], [*Merge]). *)
Context {World Storage Version Snapshot Merge : Type}.

(** [*meta.Meta], built by [meta.NewSnapshotMeta]. *)
Record Meta : Type := NewSnapshotMeta { metaSnapshot : Snapshot }.

(** The functions [pitr.go] calls and does not define.  Each takes the
    world and gives back the Go results and the world after the call. *)
Record Collaborators : Type := {
  searchFiles : string -> World -> (list string * option error) * World;
  filterFiles : list string -> Z -> Z -> World ->
                (list string * Z * option error) * World;
  getFirstBinlogCommitTSAndFileSize :
    string -> World -> (Z * Z * option error) * World;
  NewMerge : list string -> Z -> World -> (Merge * option error) * World;
  merge_Map : Merge -> Z -> Z -> World -> (bool * option error) * World;
  merge_Reduce : Merge -> World -> option error * World;
  merge_Close : Merge -> bool -> World -> World;
  ExecuteHistoryDDLs : list Job -> World -> option error * World;
  ExecuteDDL : string -> string -> World -> option error * World;
  ioutil_ReadFile : string -> World -> (string * option error) * World;
  flags_NewURLsValue : string -> URLsValue * option error;
  store_New : string -> World -> (Storage * option error) * World;
  Storage_Close : Storage -> World -> World;
  CurrentVersion : Storage -> World -> (Version * option error) * World;
  GetSnapshot : Storage -> Version -> World ->
                (Snapshot * option error) * World;
  GetAllHistoryDDLJobs : Meta -> World -> (list Job * option error) * World;
  Config_String : Config -> string
}.

(** The state of the process: the world and the driver registry of
    package [store] (its package variable [stores]). *)
Record Proc : Type := mkProc {
  world : World;
  stores : gmap string Driver
}.

(** A computation: from a process state to a result, the state after,
    and the calls made. *)
Definition M (A : Type) : Type := Proc -> A * Proc * list Event.

Definition ret {A : Type} (a : A) : M A := fun p => (a, p, []).

Definition bind {A B : Type} (m : M A) (k : A -> M B) : M B :=
  fun p =>
    match m p with
    | (a, p1, t1) =>
        match k a p1 with
        | (b, p2, t2) => (b, p2, t1 ++ t2)
        end
    end.

(** A call of a collaborator, entered in the list of calls. *)
Definition call {A : Type} (f : World -> A * World) (ev : A -> Event)
  : M A :=
  fun p =>
    match f (world p) with
    | (a, w) => (a, mkProc w (stores p), [ev a])
    end.

Definition emit (ev : Event) : M unit := fun p => (tt, p, [ev]).

(** [store.Register]: "if _, ok := stores[name]; ok" the driver is
    refused as already registered, otherwise it is entered. *)
Definition store_Register (name : string) (d : Driver) : M (option error) :=
  fun p =>
    match stores p !! name with
    | Some _ =>
        let err := Some (ErrNew (name +:+ " is already registered")%string) in
        (err, p, [EvRegister name err])
    | None =>
        (None, mkProc (world p) (<[name := d]> (stores p)),
         [EvRegister name None])
    end.

(** [store.UnRegister]: the name leaves the registry. *)
Definition store_UnRegister (name : string) : M unit :=
  fun p =>
    (tt, mkProc (world p) (delete name (stores p)), [EvUnRegister name]).
End Collaborators.

Arguments Meta : clear implicits.
Arguments Collaborators : clear implicits.
Arguments Proc : clear implicits.

Declare Scope pitr_scope.
Delimit Scope pitr_scope with pitr.
Notation "'let*' p ':=' c 'in' k" := (bind c (fun p => k))
  (at level 10, p pattern, c at level 100, k at level 200) : pitr_scope.
Notation "c ';;' k" := (bind c (fun _ => k))
  (at level 100, k at level 200, right associativity) : pitr_scope.
Local Open Scope pitr_scope.

(** What a function returning [(v, nil)] or [(nil, err)] with a handle
    [v] gives: the handle or the error. *)
Inductive result (A : Type) : Type :=
| Ok (a : A)
| Fail (err : error).
Arguments Ok {A} a.
Arguments Fail {A} err.

(** ** [pitr.go] *)

(** [isAcceptableBinlog] (lines 129-131). *)
Definition isAcceptableBinlog (binlog : Binlog) (startTs endTs : Z) : bool :=
  (CommitTs binlog >=? startTs) &&
  ((endTs =? 0) || (CommitTs binlog <=? endTs)).

Section Program.
Context {World Storage Version Snapshot Merge : Type}.
Context (env : Collaborators World Storage Version Snapshot Merge).
Context {sorter : SliceSorter}.

Abbreviation M := (@M World).

(** [defer cleanup] in front of [body]: [cleanup] runs when [body]
    returns, whatever it returns. *)
Definition defer {A : Type} (cleanup : M unit) (body : M A) : M A :=
  let* a := body in cleanup ;; ret a.

(** The loop of [execute] (lines 34-40). *)
Fixpoint executeDDLs (ddls : list string) : M (option error) :=
  match ddls with
  | [] => ret None
  | ddl :: rest =>
      let* err := call (ExecuteDDL env "" ddl) (EvExecuteDDL "" ddl) in
      match err with
      | Some _ => ret err
      | None => executeDDLs rest
      end
  end.

(** [historyDDLHandler.execute] (lines 30-41). *)
Definition execute (h : historyDDLHandler) : M (option error) :=
  emit (EvExecute h) ;;
  if negb (length (ddlJobs h) =? 0)%nat then
    call (ExecuteHistoryDDLs env (ddlJobs h))
         (EvExecuteHistoryDDLs (ddlJobs h))
  else executeDDLs (ddlSQLs h).

(** [LoadBaseSchema] (lines 119-127). *)
Definition LoadBaseSchema (r : PITR) : M (list string * option error) :=
  let path := schemaFile (cfg r) in
  let* (content, err) :=
    call (ioutil_ReadFile env path) (fun x => EvReadFile path (fst x) (snd x)) in
  match err with
  | Some _ => ret ([], err)
  | None => ret (strings_Split content newline, None)
  end.

(** [createTiStore] (lines 170-186). *)
Definition createTiStore (urls : string) : M (result Storage) :=
  match flags_NewURLsValue env urls with
  | (_, Some e) => ret (Fail (ErrTrace e))
  | (urlv, None) =>
      let* err := store_Register "tikv" TikvDriver in
      match err with
      | Some e => ret (Fail (ErrTrace e))
      | None =>
          let tiPath :=
            ("tikv://" +:+ HostString urlv +:+ "?disableGC=true")%string in
          let* (tiStore, err) :=
            call (store_New env tiPath) (fun x => EvStoreNew tiPath (snd x)) in
          match err with
          | Some e => ret (Fail (ErrTrace e))
          | None => ret (Ok tiStore)
          end
      end
  end.

(** [getSnapshotMeta] (lines 188-198). *)
Definition getSnapshotMeta (tiStore : Storage) : M (result (Meta Snapshot)) :=
  let* (version, err) :=
    call (CurrentVersion env tiStore) (fun x => EvCurrentVersion (snd x)) in
  match err with
  | Some e => ret (Fail (ErrTrace e))
  | None =>
      let* (snapshot, err) :=
        call (GetSnapshot env tiStore version)
             (fun x => EvGetSnapshot (snd x)) in
      match err with
      | Some e => ret (Fail (ErrTrace e))
      | None => ret (Ok (NewSnapshotMeta snapshot))
      end
  end.

(** The loop of [loadHistoryDDLJobs] (lines 159-165): [jobs] grows by
    [append], a job that is not kept is logged. *)
Fixpoint selectJobs (beginTS : Z) (allJobs jobs : list Job)
  : M (list Job) :=
  match allJobs with
  | [] => ret jobs
  | job :: rest =>
      if int64_of_uint64 (FinishedTS (BinlogInfo job)) <? beginTS
      then selectJobs beginTS rest (jobs ++ [job])
      else emit (EvLogIgnoreJob job) ;; selectJobs beginTS rest jobs
  end.

(** The [less] of line 153, on the elements it compares. *)
Definition lessSchemaVersion (a b : Job) : bool :=
  SchemaVersion (BinlogInfo a) <? SchemaVersion (BinlogInfo b).

(** The part of [loadHistoryDDLJobs] under its [defer] (lines 143-167). *)
Definition readHistoryDDLJobs (tiStore : Storage) (beginTS : Z)
  : M (list Job * option error) :=
  let* got := getSnapshotMeta tiStore in
  match got with
  | Fail e => ret ([], Some (ErrTrace e))
  | Ok snapMeta =>
      let* (allJobs, err) :=
        call (GetAllHistoryDDLJobs env snapMeta)
             (fun x => EvGetAllHistoryDDLJobs (fst x) (snd x)) in
      match err with
      | Some _ => ret ([], Trace err)
      | None =>
          let allJobs := sort_Slice allJobs lessSchemaVersion in
          let* jobs := selectJobs beginTS allJobs [] in
          ret (jobs, None)
      end
  end.

(** [loadHistoryDDLJobs] (lines 133-168). *)
Definition loadHistoryDDLJobs (r : PITR) (beginTS : Z)
  : M (list Job * option error) :=
  let* created := createTiStore (PDURLs (cfg r)) in
  match created with
  | Fail e => ret ([], Some (ErrTrace e))
  | Ok tiStore =>
      defer
        (call (fun w => (tt, Storage_Close env tiStore w))
              (fun _ => EvStoreClose) ;;
         store_UnRegister "tikv")
        (readHistoryDDLJobs tiStore beginTS)
  end.

(** [fetchDDLBeforeStartTSO] (lines 200-209). *)
Definition fetchDDLBeforeStartTSO (r : PITR) (startTSO : Z)
  : M (historyDDLHandler * option error) :=
  if negb (String.length (schemaFile (cfg r)) =? 0)%nat then
    let* (sqls, err) := LoadBaseSchema r in
    ret (mkHandler sqls [], Trace err)
  else if negb (String.length (PDURLs (cfg r)) =? 0)%nat then
    let* (jobs, err) := loadHistoryDDLJobs r startTSO in
    let err := Annotate err "load history ddls" in
    ret (mkHandler [] jobs, Trace err)
  else ret (mkHandler [] [], Trace None).

(** The part of [Process] under [defer merge.Close] (lines 97-111). *)
Definition mapReduce (r : PITR) (merge : Merge) (startTSO : Z)
    (historyDDLs : historyDDLHandler) : M (option error) :=
  let stopTSO := StopTSO (cfg r) in
  let* err := execute historyDDLs in
  match err with
  | Some _ => ret err
  | None =>
      let* (noEventIsFound, err) :=
        call (merge_Map env merge startTSO stopTSO)
             (fun x => EvMap startTSO stopTSO (fst x) (snd x)) in
      match err with
      | Some _ => ret (Trace err)
      | None =>
          if noEventIsFound then
            emit (EvLogInfo ("no event is found between [" +:+
                             pretty startTSO +:+ ", " +:+
                             pretty stopTSO +:+ "]")%string) ;;
            ret None
          else
            let* err := execute historyDDLs in
            match err with
            | Some _ => ret (Trace err)
            | None => call (merge_Reduce env merge) EvReduce
            end
      end
  end.

(** [Process] (lines 63-112). *)
Definition Process (r : PITR) : M (option error) :=
  let c := cfg r in
  let* (files, err) :=
    call (searchFiles env (Dir c))
         (fun x => EvSearchFiles (Dir c) (fst x) (snd x)) in
  match err with
  | Some _ =>
      ret (Annotate err ("search files in directory " +:+ Dir c +:+
                         " failed")%string)
  | None =>
  if (length files =? 0)%nat then
    ret (Annotate err ("no file is searched in directory " +:+
                       Config_String env c)%string)
  else
  let* (kept, err) :=
    call (filterFiles env files (StartTSO c) (StopTSO c))
         (fun x => EvFilterFiles files (StartTSO c) (StopTSO c)
                     (fst (fst x)) (snd (fst x)) (snd x)) in
  let (files, fileSize) := kept in
  match err with
  | Some _ => ret (Annotate err "filterFiles failed")
  | None =>
  match files with
  | [] =>
      ret (Annotate err
             ("no files remained between the time interval [" +:+
              pretty (StartTSO c) +:+ ", " +:+ pretty (StopTSO c) +:+
              "]")%string)
  | file0 :: _ =>
  let* (startTSO, err) :=
    if StartTSO c =? 0 then
      let* (first, err) :=
        call (getFirstBinlogCommitTSAndFileSize env file0)
             (fun x => EvGetFirstBinlogCommitTS file0 (fst (fst x)) (snd x)) in
      ret (fst first, err)
    else ret (StartTSO c, None) in
  match err with
  | Some _ => ret (Annotate err "get first binlog commit ts failed")
  | None =>
  let* (historyDDLs, err) := fetchDDLBeforeStartTSO r startTSO in
  match err with
  | Some _ => ret (Trace err)
  | None =>
  let* (merge, err) :=
    call (NewMerge env files fileSize)
         (fun x => EvNewMerge files fileSize (snd x)) in
  match err with
  | Some _ => ret (Trace err)
  | None =>
      defer
        (call (fun w => (tt, merge_Close env merge (reserveTempDir c) w))
              (fun _ => EvMergeClose (reserveTempDir c)))
        (mapReduce r merge startTSO historyDDLs)
  end end end end end end.
End Program.

(** ** What a run looks like *)

(** The jobs [selectJobs] keeps. *)
Definition finishedBefore (beginTS : Z) (job : Job) : bool :=
  int64_of_uint64 (FinishedTS (BinlogInfo job)) <? beginTS.

(** The spec's [finishedTS] of a job: the [FinishedTS] as line 160 reads
    it, an [int64]. *)
Definition finishedTS (job : Job) : Z :=
  int64_of_uint64 (FinishedTS (BinlogInfo job)).

Definition schemaVersion (job : Job) : Z := SchemaVersion (BinlogInfo job).

Section Outcomes.
Context {World : Type}.
Context {sorter : SliceSorter}.

(** The two outcomes of [loadHistoryDDLJobs].  Either it fails, with no
    job and no successful enumeration among its calls; or the store
    answered with [allJobs], and the result is what the loop keeps of the
    sorted slice, each dropped job logged, the store closed and "tikv"
    taken out of the registry on the way out. *)
Inductive loadHistoryDDLJobs_outcome (beginTS : Z) (p p' : Proc World)
    (jobs : list Job) (err : option error) (tr : list Event) : Prop :=
| load_failed (e : error) :
    jobs = [] -> err = Some e ->
    (forall allJobs, ~ In (EvGetAllHistoryDDLJobs allJobs None) tr) ->
    loadHistoryDDLJobs_outcome beginTS p p' jobs err tr
| load_done (allJobs : list Job) (pre : list Event) :
    err = None ->
    jobs = List.filter (finishedBefore beginTS)
             (sort_Slice allJobs lessSchemaVersion) ->
    tr = pre ++ EvGetAllHistoryDDLJobs allJobs None ::
         map EvLogIgnoreJob
           (List.filter (fun job => negb (finishedBefore beginTS job))
              (sort_Slice allJobs lessSchemaVersion)) ++
         [EvStoreClose; EvUnRegister "tikv"] ->
    Forall (fun ev => is_GetAllHistoryDDLJobs ev = false) pre ->
    stores p' !! "tikv" = None ->
    loadHistoryDDLJobs_outcome beginTS p p' jobs err tr.

(** The ways through lines 97-111, by the calls made: the first pass of
    [execute] and then either its error, or the error of [Map], or the
    log entry of an empty window, or the second pass and its error, or
    the second pass and [Reduce]. *)
Inductive mapReduce_outcome (startTSO stopTSO : Z)
    (err : option error) (tr : list Event) : Prop :=
| first_pass_failed (e : error) :
    err = Some e ->
    Forall (fun ev => component ev = Catalog) tr -> executions tr = 1%nat ->
    mapReduce_outcome startTSO stopTSO err tr
| map_failed (e : error) (noEventIsFound : bool) (pass1 : list Event) :
    err = Some (ErrTrace e) ->
    tr = pass1 ++ [EvMap startTSO stopTSO noEventIsFound (Some e)] ->
    Forall (fun ev => component ev = Catalog) pass1 ->
    executions pass1 = 1%nat ->
    mapReduce_outcome startTSO stopTSO err tr
| no_event_found (msg : string) (pass1 : list Event) :
    err = None ->
    tr = pass1 ++ [EvMap startTSO stopTSO true None; EvLogInfo msg] ->
    Forall (fun ev => component ev = Catalog) pass1 ->
    executions pass1 = 1%nat ->
    mapReduce_outcome startTSO stopTSO err tr
| second_pass_failed (e : error) (pass1 pass2 : list Event) :
    err = Some (ErrTrace e) ->
    tr = pass1 ++ EvMap startTSO stopTSO false None :: pass2 ->
    Forall (fun ev => component ev = Catalog) pass1 ->
    executions pass1 = 1%nat ->
    Forall (fun ev => component ev = Catalog) pass2 ->
    executions pass2 = 1%nat ->
    mapReduce_outcome startTSO stopTSO err tr
| reduced (pass1 pass2 : list Event) :
    tr = pass1 ++ EvMap startTSO stopTSO false None :: pass2 ++
         [EvReduce err] ->
    Forall (fun ev => component ev = Catalog) pass1 ->
    executions pass1 = 1%nat ->
    Forall (fun ev => component ev = Catalog) pass2 ->
    executions pass2 = 1%nat ->
    mapReduce_outcome startTSO stopTSO err tr.

(** The ways through [Process], by the calls made: it returns before the
    merge exists; or [NewMerge] fails; or the merge is created, lines
    97-111 run, and [merge.Close] is the last call. *)
Inductive Process_outcome (r : PITR) (err : option error)
    (tr : list Event) : Prop :=
| stopped_before_merge :
    Forall (fun ev => before_merge ev = true) tr ->
    Process_outcome r err tr
| merge_not_created (pre : list Event) (files : list string) (fileSize : Z)
    (e : error) :
    err = Some (ErrTrace e) ->
    tr = pre ++ [EvNewMerge files fileSize (Some e)] ->
    Forall (fun ev => before_merge ev = true) pre ->
    Process_outcome r err tr
| merged (pre run : list Event) (files : list string) (fileSize : Z)
    (startTSO : Z) :
    tr = pre ++ EvNewMerge files fileSize None :: run ++
         [EvMergeClose (reserveTempDir (cfg r))] ->
    Forall (fun ev => before_merge ev = true) pre ->
    mapReduce_outcome startTSO (StopTSO (cfg r)) err run ->
    Process_outcome r err tr.

End Outcomes.

(** ** A scripted world

    A world in which the collaborators answer from a script and the
    catalog is the list of the statements applied so far; the examples
    below run the pipeline in it. *)
Record Script : Type := mkScript {
  found : list string;
  remained : list string;
  firstCommitTS : Z;
  schemaContent : string;
  storeError : option error;
  historyJobs : list Job;
  noEvent : bool;
  refused : string -> bool
}.

Definition scripted (sc : Script)
  : Collaborators (list string) unit unit unit unit := {|
  searchFiles := fun _ w => ((found sc, None), w);
  filterFiles := fun _ _ _ w => ((remained sc, 64, None), w);
  getFirstBinlogCommitTSAndFileSize :=
    fun _ w => ((firstCommitTS sc, 64, None), w);
  NewMerge := fun _ _ w => ((tt, None), w);
  merge_Map := fun _ _ _ w => ((noEvent sc, None), w);
  merge_Reduce := fun _ w => (None, w);
  merge_Close := fun _ _ w => w;
  ExecuteHistoryDDLs := fun jobs w => (None, w ++ map Query jobs);
  ExecuteDDL :=
    fun _ ddl w =>
      if refused sc ddl then (Some (ErrNew "refused"), w)
      else (None, w ++ [ddl]);
  ioutil_ReadFile := fun _ w => ((schemaContent sc, None), w);
  flags_NewURLsValue := fun urls => (mkURLs [urls], None);
  store_New := fun _ w => ((tt, storeError sc), w);
  Storage_Close := fun _ w => w;
  CurrentVersion := fun _ w => ((tt, None), w);
  GetSnapshot := fun _ _ w => ((tt, None), w);
  GetAllHistoryDDLJobs := fun _ w => ((historyJobs sc, None), w);
  Config_String := Dir
|}.

(** A fresh process: an empty catalog, nothing registered. *)
Definition fresh : Proc (list string) := mkProc [] ∅.

Definition job_v5 : Job := mkJob 1 "create table a (x int)" (mkHistoryInfo 5 50).
Definition job_v1 : Job := mkJob 2 "create database d" (mkHistoryInfo 1 10).
Definition job_v3 : Job := mkJob 3 "create table b (y int)" (mkHistoryInfo 3 100).

Definition script0 : Script := {|
  found := ["binlog-0"; "binlog-1"];
  remained := ["binlog-0"; "binlog-1"];
  firstCommitTS := 100;
  schemaContent := String.concat (String newline EmptyString)
                     ["create table a (x int);"; ""; "create table b (y int);"; ""];
  storeError := None;
  historyJobs := [job_v5; job_v1; job_v3];
  noEvent := false;
  refused := fun _ => false
|}.

Definition withFile : PITR :=
  mkPITR (mkConfig "/data" 12 26 "" "schema.sql" false).
Definition withStore : PITR :=
  mkPITR (mkConfig "/data" 0 200 "127.0.0.1:2379" "" false).
Definition withBoth : PITR :=
  mkPITR (mkConfig "/data" 12 26 "127.0.0.1:2379" "schema.sql" false).
Definition withNeither : PITR :=
  mkPITR (mkConfig "/data" 12 26 "" "" false).

(** The store cluster of [script0], unreachable. *)
Definition script_unreachable : Script := {|
  found := found script0;
  remained := remained script0;
  firstCommitTS := firstCommitTS script0;
  schemaContent := schemaContent script0;
  storeError := Some (ErrNew "pd unreachable");
  historyJobs := historyJobs script0;
  noEvent := noEvent script0;
  refused := refused script0
|}.

(** A catalog that refuses the first statement of a schema file of two
    lines. *)
Definition script_refusing : Script := {|
  found := found script0;
  remained := remained script0;
  firstCommitTS := firstCommitTS script0;
  schemaContent := String.concat (String newline EmptyString)
                     ["drop table a;"; "create table b (y int);"];
  storeError := None;
  historyJobs := [];
  noEvent := false;
  refused := String.eqb "drop table a;"
|}.

(** The shards of [script0], none with an event in the window. *)
Definition script_empty_window : Script := {|
  found := found script0;
  remained := remained script0;
  firstCommitTS := firstCommitTS script0;
  schemaContent := "create table a (x int);";
  storeError := None;
  historyJobs := historyJobs script0;
  noEvent := true;
  refused := refused script0
|}.

(** A directory without shards, and one whose shards all lie outside the
    window. *)
Definition script_no_files : Script := {|
  found := [];
  remained := [];
  firstCommitTS := 0;
  schemaContent := schemaContent script0;
  storeError := None;
  historyJobs := historyJobs script0;
  noEvent := false;
  refused := refused script0
|}.

Definition script_none_in_window : Script := {|
  found := found script0;
  remained := [];
  firstCommitTS := 0;
  schemaContent := schemaContent script0;
  storeError := None;
  historyJobs := historyJobs script0;
  noEvent := false;
  refused := refused script0
|}.

(** A job whose [FinishedTS] has its top bit set, enumerated with the jobs
    of [script0]. *)
Definition job_wrapped : Job :=
  mkJob 4 "drop table a" (mkHistoryInfo 7 (2 ^ 63 + 5)).

Definition script_wrapped : Script := {|
  found := found script0;
  remained := remained script0;
  firstCommitTS := firstCommitTS script0;
  schemaContent := schemaContent script0;
  storeError := None;
  historyJobs := [job_v5; job_wrapped; job_v1; job_v3];
  noEvent := noEvent script0;
  refused := refused script0
|}.

(** A schema file of one statement, shards with events in the window,
    and the calls of [Process] in that world. *)
Definition script_one_statement : Script := {|
  found := found script0;
  remained := remained script0;
  firstCommitTS := firstCommitTS script0;
  schemaContent := "create table a (x int);";
  storeError := None;
  historyJobs := historyJobs script0;
  noEvent := false;
  refused := refused script0
|}.

Definition trace_reduced : list Event :=
  [EvSearchFiles "/data" ["binlog-0"; "binlog-1"] None;
   EvFilterFiles ["binlog-0"; "binlog-1"] 12 26 ["binlog-0"; "binlog-1"] 64
     None;
   EvReadFile "schema.sql" "create table a (x int);" None;
   EvNewMerge ["binlog-0"; "binlog-1"] 64 None;
   EvExecute (mkHandler ["create table a (x int);"] []);
   EvExecuteDDL "" "create table a (x int);" None;
   EvMap 12 26 false None;
   EvExecute (mkHandler ["create table a (x int);"] []);
   EvExecuteDDL "" "create table a (x int);" None;
   EvReduce None;
   EvMergeClose false].

(** The calls of [Process] in the world of [script_refusing]. *)
Definition trace_refused : list Event :=
  [EvSearchFiles "/data" ["binlog-0"; "binlog-1"] None;
   EvFilterFiles ["binlog-0"; "binlog-1"] 12 26 ["binlog-0"; "binlog-1"] 64
     None;
   EvReadFile "schema.sql" (schemaContent script_refusing) None;
   EvNewMerge ["binlog-0"; "binlog-1"] 64 None;
   EvExecute (mkHandler ["drop table a;"; "create table b (y int);"] []);
   EvExecuteDDL "" "drop table a;" (Some (ErrNew "refused"));
   EvMergeClose false].

(** * Properties *)

(** ** The library functions *)

Lemma strings_Split_not_nil (s : string) (sep : Ascii.ascii) :
  strings_Split s sep <> [].
Proof.
  destruct s as [|c rest]; simpl; [discriminate|].
  destruct (Ascii.eqb c sep); [discriminate|].
  destruct (strings_Split rest sep); discriminate.
Qed.

(** Joining the pieces with the separator gives the string back. *)
Lemma strings_Join_Split (s : string) (sep : Ascii.ascii) :
  strings_Join (strings_Split s sep) sep = s.
Proof.
  unfold strings_Join.
  induction s as [|c rest IH]; simpl; [reflexivity|].
  destruct (Ascii.eqb c sep) eqn:Hc.
  - apply Ascii.eqb_eq in Hc. subst c.
    pose proof (strings_Split_not_nil rest sep) as Hne.
    destruct (strings_Split rest sep) as [|piece pieces]; [contradiction|].
    simpl in *. now rewrite IH.
  - pose proof (strings_Split_not_nil rest sep) as Hne.
    destruct (strings_Split rest sep) as [|piece pieces]; [contradiction|].
    simpl in *. destruct pieces; simpl in *; now rewrite <- IH.
Qed.

(** No piece holds the separator. *)
Lemma strings_Split_pieces (s : string) (sep : Ascii.ascii) :
  Forall (fun piece => contains piece sep = false) (strings_Split s sep).
Proof.
  induction s as [|c rest IH]; simpl.
  - constructor; [reflexivity | constructor].
  - destruct (Ascii.eqb c sep) eqn:Hc.
    + constructor; [reflexivity | exact IH].
    + destruct (strings_Split rest sep) as [|piece pieces].
      * constructor; [simpl; now rewrite Hc | constructor].
      * inversion IH; subst. constructor; [simpl; now rewrite Hc | assumption].
Qed.

(** There is one piece more than there are separators. *)
Lemma strings_Split_length (s : string) (sep : Ascii.ascii) :
  length (strings_Split s sep) = S (occurrences s sep).
Proof.
  induction s as [|c rest IH]; simpl; [reflexivity|].
  destruct (Ascii.eqb c sep); simpl.
  - now rewrite IH.
  - pose proof (strings_Split_not_nil rest sep) as Hne.
    destruct (strings_Split rest sep); [contradiction | exact IH].
Qed.

Lemma insert_by_Permutation {A : Type} (less : A -> A -> bool) (a : A)
    (l : list A) :
  Permutation (a :: l) (insert_by less a l).
Proof.
  induction l as [|b l IH]; simpl; [reflexivity|].
  destruct (less a b); [reflexivity|].
  rewrite perm_swap. now apply perm_skip.
Qed.

Lemma insertion_sort_Permutation {A : Type} (x : list A)
    (less : A -> A -> bool) :
  Permutation x (insertion_sort x less).
Proof.
  induction x as [|a x IH]; simpl; [reflexivity|].
  rewrite <- insert_by_Permutation. now apply perm_skip.
Qed.

Lemma insert_by_ascending {A : Type} (less : A -> A -> bool) (a : A)
    (l : list A) :
  strict_weak_ordering less -> ascending less l ->
  ascending less (insert_by less a l).
Proof.
  intros (Hirr & Htrans & Hneg). unfold ascending.
  induction l as [|b l IH]; intros Hl; simpl.
  - constructor; constructor.
  - inversion Hl as [|? ? Hl' Hb]; subst.
    destruct (less a b) eqn:Hab.
    + constructor; [exact Hl|].
      constructor.
      * destruct (less b a) eqn:Hba; [|reflexivity].
        rewrite <- (Hirr a). symmetry. now apply (Htrans a b a).
      * rewrite Forall_forall in *. intros c Hc.
        destruct (less c a) eqn:Hca; [|reflexivity].
        rewrite <- (Hb c Hc). symmetry. now apply (Htrans c a b).
    + constructor; [now apply IH|].
      rewrite <- insert_by_Permutation. now constructor.
Qed.

Lemma insertion_sort_ascending {A : Type} (x : list A)
    (less : A -> A -> bool) :
  strict_weak_ordering less -> ascending less (insertion_sort x less).
Proof.
  intros Hless. induction x as [|a x IH]; simpl.
  - constructor.
  - now apply insert_by_ascending.
Qed.

Definition insertionSorter : SliceSorter := {|
  sort_Slice := @insertion_sort;
  sort_Slice_Permutation := @insertion_sort_Permutation;
  sort_Slice_ascending := @insertion_sort_ascending
|}.

(** ** Runs of the functions of [pitr.go] *)

Section Runs.
Context {World Storage Version Snapshot Merge : Type}.
Context (env : Collaborators World Storage Version Snapshot Merge).
Context {sorter : SliceSorter}.

Lemma selectJobs_run (beginTS : Z) (allJobs jobs : list Job) (p : Proc World) :
  selectJobs beginTS allJobs jobs p =
  (jobs ++ List.filter (finishedBefore beginTS) allJobs, p,
   map EvLogIgnoreJob
     (List.filter (fun job => negb (finishedBefore beginTS job)) allJobs)).
Proof.
  revert jobs. induction allJobs as [|job rest IH]; intros jobs; simpl.
  - unfold ret. now rewrite app_nil_r.
  - fold (finishedBefore beginTS job).
    destruct (finishedBefore beginTS job); simpl.
    + rewrite IH. now rewrite <- app_assoc.
    + unfold bind, emit. now rewrite IH.
Qed.

(** A run of the statement loop: the statements go to [ExecuteDDL] under
    the schema name [""], in order, until one is refused. *)
Lemma executeDDLs_run (ddls : list string) (p p' : Proc World)
    (err : option error) (tr : list Event) :
  executeDDLs env ddls p = (err, p', tr) ->
  stores p' = stores p /\
  match err with
  | None => tr = map (fun ddl => EvExecuteDDL "" ddl None) ddls
  | Some _ =>
      exists done ddl rest,
        ddls = done ++ ddl :: rest /\
        tr = map (fun ddl => EvExecuteDDL "" ddl None) done ++
             [EvExecuteDDL "" ddl err]
  end.
Proof.
  revert p p' err tr. induction ddls as [|ddl rest IH]; intros p p' err tr Hrun.
  - inversion Hrun; subst. now split.
  - simpl in Hrun. unfold bind, call in Hrun.
    destruct (ExecuteDDL env "" ddl (world p)) as [e w] eqn:Hcall.
    destruct e as [e|].
    + inversion Hrun; subst; clear Hrun. simpl. split; [reflexivity|].
      exists [], ddl, rest. now split.
    + destruct (executeDDLs env rest (mkProc w (stores p))) as [[err1 p1] tr1]
        eqn:Hrest.
      inversion Hrun; subst; clear Hrun.
      apply IH in Hrest as (Hst & Herr). simpl. split; [exact Hst|].
      destruct err as [e|].
      * destruct Herr as (done & d & rest' & -> & ->).
        now exists (ddl :: done), d, rest'.
      * now rewrite Herr.
Qed.

Lemma executeDDLs_events (ddls : list string) (p p' : Proc World)
    (err : option error) (tr : list Event) :
  executeDDLs env ddls p = (err, p', tr) ->
  Forall (fun ev => component ev = Catalog) tr /\ executions tr = 0%nat.
Proof.
  intros Hrun. apply executeDDLs_run in Hrun as [_ Htr].
  assert (Hok : forall l,
             Forall (fun ev => component ev = Catalog)
               (map (fun ddl => EvExecuteDDL "" ddl None) l) /\
             executions (map (fun ddl => EvExecuteDDL "" ddl None) l) = 0%nat).
  { induction l as [|d l [IH1 IH2]]; simpl; split;
      [constructor | reflexivity | now constructor | exact IH2]. }
  destruct err as [e|].
  - destruct Htr as (done & ddl & rest & _ & ->).
    destruct (Hok done) as [H1 H2]. split.
    + apply Forall_app. split; [exact H1 | repeat constructor].
    + unfold executions in *. rewrite List.filter_app, length_app, H2.
      reflexivity.
  - subst tr. apply Hok.
Qed.

Lemma execute_run (h : historyDDLHandler) (p p' : Proc World)
    (err : option error) (tr : list Event) :
  execute env h p = (err, p', tr) ->
  exists tr', tr = EvExecute h :: tr' /\
    Forall (fun ev => component ev = Catalog) tr /\
    executions tr = 1%nat /\
    stores p' = stores p.
Proof.
  unfold execute, bind, emit, call. intros Hrun.
  destruct (negb (length (ddlJobs h) =? 0)%nat).
  - destruct (ExecuteHistoryDDLs env (ddlJobs h) (world p)) as [e w].
    inversion Hrun; subst; clear Hrun. eexists; split; [reflexivity|].
    repeat split; repeat constructor.
  - destruct (executeDDLs env (ddlSQLs h) p) as [[e p1] tr1] eqn:Hloop.
    inversion Hrun; subst; clear Hrun.
    pose proof (executeDDLs_events _ _ _ _ _ Hloop) as (Hcat & Hex).
    apply executeDDLs_run in Hloop as (Hst & _).
    eexists; split; [reflexivity|].
    repeat split; [now constructor | | exact Hst].
    unfold executions in *. simpl. now rewrite Hex.
Qed.

(** [LoadBaseSchema] reads the file and nothing else. *)
Lemma LoadBaseSchema_run (r : PITR) (p p' : Proc World)
    (ddls : list string) (err : option error) (tr : list Event) :
  LoadBaseSchema env r p = ((ddls, err), p', tr) ->
  exists content e,
    ioutil_ReadFile env (schemaFile (cfg r)) (world p) =
      ((content, e), world p') /\
    tr = [EvReadFile (schemaFile (cfg r)) content e] /\
    stores p' = stores p /\
    err = e /\
    ddls = match e with
           | None => strings_Split content newline
           | Some _ => []
           end.
Proof.
  unfold LoadBaseSchema, bind, call, ret. intros Hrun.
  destruct (ioutil_ReadFile env (schemaFile (cfg r)) (world p))
    as [[content e] w] eqn:Hread.
  exists content, e. destruct e; inversion Hrun; subst; clear Hrun; simpl;
    repeat split; reflexivity.
Qed.

(** A run of [createTiStore]: when it gives a store the driver has been
    entered under "tikv"; when the URLs do not parse, or "tikv" is taken
    already, the registry is as it was. *)
Lemma createTiStore_run (urls : string) (p p' : Proc World)
    (created : result Storage) (tr : list Event) :
  createTiStore env urls p = (created, p', tr) ->
  Forall (fun ev => component ev = StoreCluster /\
                    is_GetAllHistoryDDLJobs ev = false) tr /\
  match created with
  | Ok _ => stores p !! "tikv" = None /\ stores p' = <["tikv" := TikvDriver]> (stores p)
  | Fail _ => True
  end.
Proof.
  unfold createTiStore, bind, call, ret, store_Register. intros Hrun.
  destruct (flags_NewURLsValue env urls) as [urlv [e|]].
  { inversion Hrun; subst. split; [constructor | exact I]. }
  destruct (stores p !! "tikv") eqn:Hreg.
  { inversion Hrun; subst. split; [repeat constructor | exact I]. }
  simpl in Hrun.
  destruct (store_New env _ _) as [[tiStore [e|]] w];
    inversion Hrun; subst; clear Hrun; simpl;
    (split; [repeat constructor | auto]).
Qed.

Lemma getSnapshotMeta_run (tiStore : Storage) (p p' : Proc World)
    (got : result (Meta Snapshot)) (tr : list Event) :
  getSnapshotMeta env tiStore p = (got, p', tr) ->
  Forall (fun ev => component ev = StoreCluster /\
                    is_GetAllHistoryDDLJobs ev = false) tr /\
  stores p' = stores p.
Proof.
  unfold getSnapshotMeta, bind, call, ret. intros Hrun.
  destruct (CurrentVersion env tiStore (world p)) as [[version [e|]] w].
  { inversion Hrun; subst. split; [repeat constructor | reflexivity]. }
  simpl in Hrun.
  destruct (GetSnapshot env tiStore version w) as [[snapshot [e|]] w'];
    inversion Hrun; subst; clear Hrun;
    (split; [repeat constructor | reflexivity]).
Qed.

Lemma loadHistoryDDLJobs_run (r : PITR) (beginTS : Z) (p p' : Proc World)
    (jobs : list Job) (err : option error) (tr : list Event) :
  loadHistoryDDLJobs env r beginTS p = ((jobs, err), p', tr) ->
  loadHistoryDDLJobs_outcome beginTS p p' jobs err tr /\
  Forall (fun ev => component ev = StoreCluster \/ component ev = Logger) tr.
Proof.
  unfold loadHistoryDDLJobs, readHistoryDDLJobs, defer, bind, ret.
  intros Hrun.
  destruct (createTiStore env (PDURLs (cfg r)) p) as [[created p1] tr1]
    eqn:Hcreate.
  apply createTiStore_run in Hcreate as (Htr1 & Hreg).
  assert (Hno1 : forall allJobs, ~ In (EvGetAllHistoryDDLJobs allJobs None) tr1).
  { intros allJobs Hin. rewrite List.Forall_forall in Htr1.
    apply Htr1 in Hin as [_ Hin]. discriminate Hin. }
  assert (Hc1 : Forall (fun ev => component ev = StoreCluster \/
                                  component ev = Logger) tr1).
  { eapply List.Forall_impl; [|exact Htr1]. simpl. intros ev [Hev _]. now left. }
  destruct created as [tiStore|e].
  { destruct Hreg as (_ & Hstores).
    destruct (getSnapshotMeta env tiStore p1) as [[got p2] tr2] eqn:Hmeta.
    apply getSnapshotMeta_run in Hmeta as (Htr2 & Hst2).
    assert (Hno2 : forall allJobs,
               ~ In (EvGetAllHistoryDDLJobs allJobs None) tr2).
    { intros allJobs Hin. rewrite List.Forall_forall in Htr2.
      apply Htr2 in Hin as [_ Hin]. discriminate Hin. }
    assert (Hc2 : Forall (fun ev => component ev = StoreCluster \/
                                    component ev = Logger) tr2).
    { eapply List.Forall_impl; [|exact Htr2]. simpl. intros ev [Hev _].
      now left. }
    destruct got as [snapMeta|e]; unfold call, store_UnRegister in Hrun;
      simpl in Hrun.
    - destruct (GetAllHistoryDDLJobs env snapMeta (world p2))
        as [[allJobs [e|]] w] eqn:Hall; simpl in Hrun.
      + inversion Hrun; subst; clear Hrun. split.
        * apply load_failed with (e := ErrTrace e); [reflexivity..|].
          intros allJobs' Hin. rewrite ?in_app_iff in Hin. simpl in Hin.
          destruct Hin as [Hin|[[Hin|[Hin|[]]]|[Hin|[Hin|[]]]]];
            try discriminate Hin.
          -- now apply Hno1 in Hin.
          -- now apply Hno2 in Hin.
        * rewrite ?Forall_app. repeat split; auto; repeat constructor.
      + rewrite selectJobs_run in Hrun. inversion Hrun; subst; clear Hrun.
        split.
        * apply load_done with (allJobs := allJobs) (pre := tr1 ++ tr2).
          -- reflexivity.
          -- reflexivity.
          -- simpl. rewrite app_nil_r. rewrite <- !app_assoc. reflexivity.
          -- rewrite Forall_app. split.
             ++ eapply List.Forall_impl; [|exact Htr1]. simpl.
                now intros ev [_ Hev].
             ++ eapply List.Forall_impl; [|exact Htr2]. simpl.
                now intros ev [_ Hev].
          -- simpl. apply lookup_delete_eq.
        * rewrite ?Forall_app. repeat split; auto; try (repeat constructor).
          -- simpl. rewrite app_nil_r. apply List.Forall_forall.
             intros ev Hin. apply in_map_iff in Hin as (j & <- & _).
             now right.
    - inversion Hrun; subst; clear Hrun. split.
      + apply load_failed with (e := ErrTrace e); [reflexivity..|].
        intros allJobs Hin. rewrite ?in_app_iff in Hin. simpl in Hin.
        destruct Hin as [Hin|[[Hin|[]]|[Hin|[Hin|[]]]]];
          try discriminate Hin.
        * now apply Hno1 in Hin.
        * now apply Hno2 in Hin.
      + rewrite ?Forall_app. repeat split; auto; repeat constructor. }
  inversion Hrun; subst; clear Hrun. rewrite app_nil_r. split; [|exact Hc1].
  apply load_failed with (e := ErrTrace e); [reflexivity..|exact Hno1].
Qed.
End Runs.

(** ** Window acceptance *)

(** C5: [isAcceptableBinlog] accepts an event exactly when its commit
    timestamp is at least the start and, unless the stop is 0, at most the
    stop.  An event committed at the start is accepted whenever the stop
    admits it, one committed at the stop whenever the start does, and a
    stop of 0 leaves the start as the only bound. *)
Theorem isAcceptableBinlog_window (binlog : Binlog) (startTs endTs : Z) :
  (isAcceptableBinlog binlog startTs endTs = true <->
     CommitTs binlog >= startTs /\ (endTs = 0 \/ CommitTs binlog <= endTs)) /\
  (isAcceptableBinlog (mkBinlog (StartTs binlog) startTs) startTs endTs = true
     <-> endTs = 0 \/ startTs <= endTs) /\
  (isAcceptableBinlog (mkBinlog (StartTs binlog) endTs) startTs endTs = true
     <-> startTs <= endTs) /\
  (isAcceptableBinlog binlog startTs 0 = true <-> CommitTs binlog >= startTs).
Proof.
  unfold isAcceptableBinlog. simpl.
  repeat split;
    rewrite ?andb_true_iff, ?orb_true_iff, ?Z.geb_le, ?Z.leb_le, ?Z.eqb_eq;
    lia.
Qed.

(** ** The history DDL jobs *)

(** A [FinishedTS] below 2^63, as every timestamp the store hands out is,
    reads as itself. *)
Lemma int64_of_uint64_small (u : Z) :
  0 <= u < 2 ^ 63 -> int64_of_uint64 u = u.
Proof.
  intros Hu. unfold int64_of_uint64.
  destruct (u <? 2 ^ 63) eqn:Hlt; [reflexivity|].
  apply Z.ltb_ge in Hlt. lia.
Qed.

(** A [FinishedTS] of 2^63 or more reads as a negative [int64]. *)
Example finishedTS_wraps :
  finishedTS (mkJob 7 "drop table a" (mkHistoryInfo 9 (2 ^ 63))) = - 2 ^ 63.
Proof. reflexivity. Qed.

Lemma lessSchemaVersion_strict_weak_ordering :
  strict_weak_ordering lessSchemaVersion.
Proof.
  unfold strict_weak_ordering, lessSchemaVersion.
  repeat split; intros *; rewrite ?Z.ltb_lt, ?Z.ltb_ge, ?Z.ltb_irrefl; lia.
Qed.

Lemma StronglySorted_filter_keep {A : Type} (R : A -> A -> Prop)
    (keep : A -> bool) (l : list A) :
  StronglySorted R l -> StronglySorted R (List.filter keep l).
Proof.
  induction 1 as [|a l Hl IH Ha]; simpl; [constructor|].
  destruct (keep a); [|exact IH].
  constructor; [exact IH|].
  rewrite List.Forall_forall in *. intros b Hb.
  apply List.filter_In in Hb as [Hb _]. now apply Ha.
Qed.

Section HistoryJobs.
Context {World Storage Version Snapshot Merge : Type}.
Context (env : Collaborators World Storage Version Snapshot Merge).
Context {sorter : SliceSorter}.

(** C3: of the jobs the snapshot enumerates, [loadHistoryDDLJobs] returns
    exactly those whose finishedTS is strictly less than the begin
    timestamp, each as often as it was enumerated; a job finished at the
    begin timestamp itself is left out; every job left out is logged, and
    the call returns no error. *)
Theorem loadHistoryDDLJobs_keeps_finished_before (r : PITR) (beginTS : Z)
    (p p' : Proc World) (jobs allJobs : list Job) (err : option error)
    (tr : list Event) :
  loadHistoryDDLJobs env r beginTS p = ((jobs, err), p', tr) ->
  In (EvGetAllHistoryDDLJobs allJobs None) tr ->
  err = None /\
  (forall J, In J jobs <-> In J allJobs /\ finishedTS J < beginTS) /\
  (forall J, 0 <= FinishedTS (BinlogInfo J) < 2 ^ 63 ->
     (In J jobs <-> In J allJobs /\ FinishedTS (BinlogInfo J) < beginTS)) /\
  Permutation jobs (List.filter (finishedBefore beginTS) allJobs) /\
  (forall J, In J allJobs -> finishedTS J = beginTS -> ~ In J jobs) /\
  (forall J, In J allJobs -> ~ In J jobs -> In (EvLogIgnoreJob J) tr).
Proof.
  intros Hrun Hev.
  apply loadHistoryDDLJobs_run in Hrun as [Hout _].
  destruct Hout as [e _ _ Hno | all pre Herr Hjobs Htr Hpre _].
  { now apply Hno in Hev. }
  assert (all = allJobs) as ->.
  { subst tr. rewrite in_app_iff in Hev. simpl in Hev.
    destruct Hev as [Hev|[Hev|Hev]].
    - rewrite List.Forall_forall in Hpre. apply Hpre in Hev. discriminate Hev.
    - now inversion Hev.
    - rewrite in_app_iff in Hev. simpl in Hev.
      destruct Hev as [Hev|[Hev|[Hev|[]]]]; try discriminate Hev.
      apply in_map_iff in Hev as (j & Hj & _). discriminate Hj. }
  pose proof (sort_Slice_Permutation _ allJobs lessSchemaVersion) as Hperm.
  assert (Hin : forall J, In J jobs <-> In J allJobs /\ finishedTS J < beginTS).
  { intros J. subst jobs. rewrite List.filter_In.
    unfold finishedBefore, finishedTS. rewrite Z.ltb_lt.
    split; intros [HJ Hlt]; (split; [|exact Hlt]).
    - eapply Permutation_in; [symmetry; exact Hperm | exact HJ].
    - eapply Permutation_in; [exact Hperm | exact HJ]. }
  split; [exact Herr|]. split; [exact Hin|]. split; [|split; [|split]].
  - intros J HJ. rewrite Hin. unfold finishedTS.
    now rewrite int64_of_uint64_small.
  - subst jobs. clear -Hperm. symmetry.
    induction Hperm; simpl.
    + constructor.
    + destruct (finishedBefore beginTS x); [now constructor|assumption].
    + destruct (finishedBefore beginTS x), (finishedBefore beginTS y);
        try reflexivity. apply perm_swap.
    + etransitivity; eassumption.
  - intros J _ Hts HJ. apply Hin in HJ as [_ Hlt]. lia.
  - intros J HJ Hnot. subst tr. rewrite in_app_iff. right. right.
    rewrite in_app_iff. left. apply in_map. apply List.filter_In. split.
    + eapply Permutation_in; [exact Hperm | exact HJ].
    + destruct (finishedBefore beginTS J) eqn:Hkeep; [|reflexivity].
      exfalso. apply Hnot. apply Hin. split; [exact HJ|].
      unfold finishedBefore in Hkeep. now apply Z.ltb_lt in Hkeep.
Qed.

(** C4: whatever the order in which the store enumerates the jobs, the
    jobs [loadHistoryDDLJobs] returns are in ascending order of schema
    version. *)
Theorem loadHistoryDDLJobs_sorted_by_schema_version (r : PITR)
    (beginTS : Z) (p p' : Proc World) (jobs : list Job)
    (err : option error) (tr : list Event) :
  loadHistoryDDLJobs env r beginTS p = ((jobs, err), p', tr) ->
  StronglySorted (fun a b => schemaVersion a <= schemaVersion b) jobs.
Proof.
  intros Hrun.
  apply loadHistoryDDLJobs_run in Hrun as [Hout _].
  destruct Hout as [e -> _ _ | allJobs pre _ -> _ _ _]; [constructor|].
  apply StronglySorted_filter_keep.
  pose proof (sort_Slice_ascending _ allJobs lessSchemaVersion
                lessSchemaVersion_strict_weak_ordering) as Hsorted.
  unfold ascending in Hsorted.
  induction Hsorted as [|a l Hl IH Ha]; constructor; [exact IH|].
  eapply List.Forall_impl; [|exact Ha]. simpl. intros b Hb.
  unfold lessSchemaVersion in Hb. apply Z.ltb_ge in Hb. exact Hb.
Qed.
End HistoryJobs.

(** The jobs of [script0], enumerated by job identifier with the schema
    versions 5, 1, 3, and read with a begin timestamp of 100: the job
    finished at 100 is left out and logged, the other two come out by
    schema version. *)
Lemma loadHistoryDDLJobs_keeps_finished_before_witness :
  (None : option error) = None /\
  (forall J, In J [job_v1; job_v5] <->
     In J [job_v5; job_v1; job_v3] /\ finishedTS J < 100) /\
  (forall J, 0 <= FinishedTS (BinlogInfo J) < 2 ^ 63 ->
     (In J [job_v1; job_v5] <->
        In J [job_v5; job_v1; job_v3] /\ FinishedTS (BinlogInfo J) < 100)) /\
  Permutation [job_v1; job_v5]
    (List.filter (finishedBefore 100) [job_v5; job_v1; job_v3]) /\
  (forall J, In J [job_v5; job_v1; job_v3] -> finishedTS J = 100 ->
     ~ In J [job_v1; job_v5]) /\
  (forall J, In J [job_v5; job_v1; job_v3] -> ~ In J [job_v1; job_v5] ->
     In (EvLogIgnoreJob J)
       [EvRegister "tikv" None;
        EvStoreNew "tikv://127.0.0.1:2379?disableGC=true" None;
        EvCurrentVersion None; EvGetSnapshot None;
        EvGetAllHistoryDDLJobs [job_v5; job_v1; job_v3] None;
        EvLogIgnoreJob job_v3; EvStoreClose; EvUnRegister "tikv"]).
Proof.
  apply (loadHistoryDDLJobs_keeps_finished_before
           (sorter := insertionSorter) (scripted script0) withStore 100 fresh
           (mkProc [] (delete "tikv" (<["tikv" := TikvDriver]> ∅)))).
  - reflexivity.
  - simpl. tauto.
Defined.

Lemma loadHistoryDDLJobs_sorted_by_schema_version_witness :
  StronglySorted (fun a b => schemaVersion a <= schemaVersion b)
    [job_v1; job_v3; job_v5].
Proof.
  apply (loadHistoryDDLJobs_sorted_by_schema_version
           (sorter := insertionSorter) (scripted script0) withStore 1000 fresh
           (mkProc [] (delete "tikv" (<["tikv" := TikvDriver]> ∅)))
           [job_v1; job_v3; job_v5] None
           [EvRegister "tikv" None;
            EvStoreNew "tikv://127.0.0.1:2379?disableGC=true" None;
            EvCurrentVersion None; EvGetSnapshot None;
            EvGetAllHistoryDDLJobs [job_v5; job_v1; job_v3] None;
            EvStoreClose; EvUnRegister "tikv"]).
  reflexivity.
Defined.

(** ** Choosing the source of the schema history *)

Lemma length_zero_empty (s : string) :
  (String.length s =? 0)%nat = true <-> s = EmptyString.
Proof.
  destruct s; simpl; split; intros H; try reflexivity; discriminate.
Qed.

Section Resolver.
Context {World Storage Version Snapshot Merge : Type}.
Context (env : Collaborators World Storage Version Snapshot Merge).
Context {sorter : SliceSorter}.

(** C6: the first configured source wins.  With a schema file configured,
    store endpoints or not, the handler holds the lines of the file (the
    error is that of reading it), the only call made is the read, and no
    call goes to the store; with only the endpoints configured it holds
    what [loadHistoryDDLJobs] returns; with neither it is empty, nothing
    is called, and executing it calls nothing, changes nothing and
    returns no error. *)
Theorem fetchDDLBeforeStartTSO_first_match (r : PITR) (startTSO : Z)
    (p p' : Proc World) (h : historyDDLHandler) (err : option error)
    (tr : list Event) :
  fetchDDLBeforeStartTSO env r startTSO p = ((h, err), p', tr) ->
  (schemaFile (cfg r) <> EmptyString ->
     exists content e,
       ioutil_ReadFile env (schemaFile (cfg r)) (world p) =
         ((content, e), world p') /\
       tr = [EvReadFile (schemaFile (cfg r)) content e] /\
       Forall (fun ev => component ev <> StoreCluster) tr /\
       stores p' = stores p /\
       err = Trace e /\
       h = mkHandler match e with
                     | None => strings_Split content newline
                     | Some _ => []
                     end []) /\
  (schemaFile (cfg r) = EmptyString -> PDURLs (cfg r) <> EmptyString ->
     exists jobs e,
       loadHistoryDDLJobs env r startTSO p = ((jobs, e), p', tr) /\
       err = Trace (Annotate e "load history ddls") /\
       h = mkHandler [] jobs) /\
  (schemaFile (cfg r) = EmptyString -> PDURLs (cfg r) = EmptyString ->
     h = mkHandler [] [] /\ err = None /\ tr = [] /\ p' = p /\
     forall q, execute env h q = (None, q, [EvExecute h])).
Proof.
  unfold fetchDDLBeforeStartTSO. intros Hrun.
  destruct (String.length (schemaFile (cfg r)) =? 0)%nat eqn:Hfile;
    [apply length_zero_empty in Hfile|]; simpl in Hrun.
  - split; [intros Hne; contradiction|].
    destruct (String.length (PDURLs (cfg r)) =? 0)%nat eqn:Hpd;
      [apply length_zero_empty in Hpd|]; simpl in Hrun.
    + split; [intros _ Hne; contradiction|]. intros _ _.
      inversion Hrun; subst; clear Hrun. repeat split.
    + split.
      * intros _ _. unfold bind, ret in Hrun.
        destruct (loadHistoryDDLJobs env r startTSO p) as [[[jobs e] p1] tr1].
        inversion Hrun; subst; clear Hrun. exists jobs, e.
        now rewrite app_nil_r.
      * intros _ Hpd'. rewrite Hpd' in Hpd. discriminate Hpd.
  - split; [|split; intros Hfile'; rewrite Hfile' in Hfile; discriminate Hfile].
    intros _. unfold bind, ret in Hrun.
    destruct (LoadBaseSchema env r p) as [[[sqls e] p1] tr1] eqn:Hload.
    inversion Hrun; subst; clear Hrun.
    apply LoadBaseSchema_run in Hload
      as (content & e' & Hread & -> & Hst & -> & ->).
    exists content, e'. repeat split; try assumption.
    repeat constructor. discriminate.
Qed.

(** C8: in the handler [fetchDDLBeforeStartTSO] returns, with or without
    an error, the statements and the jobs are never both there. *)
Theorem fetchDDLBeforeStartTSO_one_variant (r : PITR) (startTSO : Z)
    (p p' : Proc World) (h : historyDDLHandler) (err : option error)
    (tr : list Event) :
  fetchDDLBeforeStartTSO env r startTSO p = ((h, err), p', tr) ->
  (ddlSQLs h = [] \/ ddlJobs h = []) /\
  ~ (ddlSQLs h <> [] /\ ddlJobs h <> []).
Proof.
  unfold fetchDDLBeforeStartTSO, bind, ret. intros Hrun.
  assert (Hone : ddlSQLs h = [] \/ ddlJobs h = []).
  { destruct (negb (String.length (schemaFile (cfg r)) =? 0)%nat).
    - destruct (LoadBaseSchema env r p) as [[[sqls e] p1] tr1].
      inversion Hrun; subst. now right.
    - destruct (negb (String.length (PDURLs (cfg r)) =? 0)%nat).
      + destruct (loadHistoryDDLJobs env r startTSO p) as [[[jobs e] p1] tr1].
        inversion Hrun; subst. now left.
      + inversion Hrun; subst. now left. }
  split; [exact Hone|]. intros [Hsql Hjob]. destruct Hone; contradiction.
Qed.
End Resolver.

(** With the schema file and the store endpoints both configured, the
    handler holds the four lines of the file and the run is one read. *)
Lemma fetchDDLBeforeStartTSO_first_match_witness :
  exists content e,
    ioutil_ReadFile (scripted script0) "schema.sql" [] =
      ((content, e), []) /\
    [EvReadFile "schema.sql" (schemaContent script0) None] =
      [EvReadFile "schema.sql" content e] /\
    Forall (fun ev => component ev <> StoreCluster)
      [EvReadFile "schema.sql" (schemaContent script0) None] /\
    stores fresh = stores fresh /\
    None = Trace e /\
    mkHandler ["create table a (x int);"; ""; "create table b (y int);"; ""]
      [] =
    mkHandler match e with
              | None => strings_Split content newline
              | Some _ => []
              end [].
Proof.
  apply (proj1 (fetchDDLBeforeStartTSO_first_match
                  (sorter := insertionSorter) (scripted script0) withBoth 12
                  fresh fresh _ _ _ eq_refl)).
  discriminate.
Defined.

(** With neither configured nothing is called and the handler is empty. *)
Example fetchDDLBeforeStartTSO_neither :
  fetchDDLBeforeStartTSO (sorter := insertionSorter) (scripted script0)
    withNeither 12 fresh =
  ((mkHandler [] [], None), fresh, []).
Proof. reflexivity. Qed.

Lemma fetchDDLBeforeStartTSO_one_variant_witness :
  (ddlSQLs (mkHandler [] [job_v1; job_v5]) = [] \/
   ddlJobs (mkHandler [] [job_v1; job_v5]) = []) /\
  ~ (ddlSQLs (mkHandler [] [job_v1; job_v5]) <> [] /\
     ddlJobs (mkHandler [] [job_v1; job_v5]) <> []).
Proof.
  apply (fetchDDLBeforeStartTSO_one_variant (sorter := insertionSorter)
           (scripted script0) withStore 100 fresh
           (mkProc [] (delete "tikv" (<["tikv" := TikvDriver]> ∅)))
           _ None
           [EvRegister "tikv" None;
            EvStoreNew "tikv://127.0.0.1:2379?disableGC=true" None;
            EvCurrentVersion None; EvGetSnapshot None;
            EvGetAllHistoryDDLJobs [job_v5; job_v1; job_v3] None;
            EvLogIgnoreJob job_v3; EvStoreClose; EvUnRegister "tikv"]).
  reflexivity.
Defined.

(** ** The store handle and the driver registry *)

Section StoreRegistry.
Context {World Storage Version Snapshot Merge : Type}.
Context (env : Collaborators World Storage Version Snapshot Merge).
Context {sorter : SliceSorter}.

(** Once [createTiStore] has given a store, [loadHistoryDDLJobs] closes it
    and takes "tikv" out of the registry before it returns, whether the
    snapshot and the enumeration succeed or not. *)
Lemma loadHistoryDDLJobs_releases_created_store (r : PITR) (beginTS : Z)
    (p p' : Proc World) (jobs : list Job) (err : option error)
    (tr : list Event) (path : string) :
  loadHistoryDDLJobs env r beginTS p = ((jobs, err), p', tr) ->
  In (EvStoreNew path None) tr ->
  (exists pre, tr = pre ++ [EvStoreClose; EvUnRegister "tikv"]) /\
  stores p' !! "tikv" = None.
Proof.
  unfold loadHistoryDDLJobs, defer, bind, ret. intros Hrun Hnew.
  destruct (createTiStore env (PDURLs (cfg r)) p) as [[created p1] tr1]
    eqn:Hcreate.
  destruct created as [tiStore|e].
  - destruct (readHistoryDDLJobs env tiStore beginTS p1) as [[res p2] tr2].
    unfold call, store_UnRegister, bind in Hrun. simpl in Hrun.
    inversion Hrun; subst; clear Hrun. split.
    + exists (tr1 ++ tr2). now rewrite <- app_assoc.
    + simpl. apply lookup_delete_eq.
  - exfalso. inversion Hrun; subst; clear Hrun. rewrite app_nil_r in Hnew.
    unfold createTiStore, bind, call, ret, store_Register in Hcreate.
    destruct (flags_NewURLsValue env (PDURLs (cfg r))) as [urlv [e'|]].
    { inversion Hcreate; subst. destruct Hnew. }
    destruct (stores p !! "tikv").
    { inversion Hcreate; subst. simpl in Hnew. intuition discriminate. }
    simpl in Hcreate.
    destruct (store_New env _ _) as [[tiStore [e'|]] w];
      inversion Hcreate; subst; clear Hcreate; simpl in Hnew;
      intuition discriminate.
Qed.

(** C9, as the code has it: when [store.New] fails, [createTiStore] has
    entered the driver already, and [loadHistoryDDLJobs] returns at line
    136, before its [defer] is in place: "tikv" stays registered and no
    [UnRegister] is called. *)
Theorem loadHistoryDDLJobs_leaks_registration (r : PITR) (beginTS : Z)
    (p : Proc World) (urlv : URLsValue) (tiStore : Storage) (e : error)
    (w : World) :
  stores p !! "tikv" = None ->
  flags_NewURLsValue env (PDURLs (cfg r)) = (urlv, None) ->
  store_New env ("tikv://" +:+ HostString urlv +:+ "?disableGC=true")
    (world p) = ((tiStore, Some e), w) ->
  exists p' tr,
    loadHistoryDDLJobs env r beginTS p =
      (([], Some (ErrTrace (ErrTrace e))), p', tr) /\
    stores p' !! "tikv" = Some TikvDriver /\
    tr = [EvRegister "tikv" None;
          EvStoreNew ("tikv://" +:+ HostString urlv +:+ "?disableGC=true")
            (Some e)].
Proof.
  intros Hfree Hurls Hnew.
  unfold loadHistoryDDLJobs, createTiStore, bind, call, ret, store_Register.
  rewrite Hurls, Hfree. simpl. rewrite Hnew. simpl.
  eexists _, _. split; [reflexivity|]. split; [|reflexivity].
  simpl. apply lookup_insert_eq.
Qed.

(** With "tikv" left in the registry, the next call fails at
    [store.Register] and reads no job. *)
Lemma loadHistoryDDLJobs_after_leak (r : PITR) (beginTS : Z)
    (p : Proc World) (urlv : URLsValue) (d : Driver) :
  stores p !! "tikv" = Some d ->
  flags_NewURLsValue env (PDURLs (cfg r)) = (urlv, None) ->
  loadHistoryDDLJobs env r beginTS p =
    (([], Some (ErrTrace (ErrTrace (ErrNew "tikv is already registered")))),
     p, [EvRegister "tikv" (Some (ErrNew "tikv is already registered"))]).
Proof.
  intros Htaken Hurls.
  unfold loadHistoryDDLJobs, createTiStore, bind, call, ret, store_Register.
  rewrite Hurls, Htaken. reflexivity.
Qed.
End StoreRegistry.

Lemma loadHistoryDDLJobs_leaks_registration_witness :
  exists p' tr,
    loadHistoryDDLJobs (sorter := insertionSorter)
      (scripted script_unreachable) withStore 100 fresh =
      (([], Some (ErrTrace (ErrTrace (ErrNew "pd unreachable")))), p', tr) /\
    stores p' !! "tikv" = Some TikvDriver /\
    tr = [EvRegister "tikv" None;
          EvStoreNew "tikv://127.0.0.1:2379?disableGC=true"
            (Some (ErrNew "pd unreachable"))].
Proof.
  apply (loadHistoryDDLJobs_leaks_registration (sorter := insertionSorter)
           (scripted script_unreachable) withStore 100 fresh
           (mkURLs ["127.0.0.1:2379"]) tt (ErrNew "pd unreachable") []).
  - reflexivity.
  - reflexivity.
  - reflexivity.
Defined.

(** ** The schema file and the statements executed *)

Section SchemaFile.
Context {World Storage Version Snapshot Merge : Type}.
Context (env : Collaborators World Storage Version Snapshot Merge).

(** [execute] keeps no record of what it has applied: in whatever state
    it is called, after an earlier call or not, it hands the jobs, or the
    first statement, to [ddlHandle], and what [ddlHandle] answers then
    decides how the call goes on. *)
Lemma execute_asks_ddlHandle (h : historyDDLHandler) (q q' : Proc World)
    (err : option error) (tr : list Event) :
  execute env h q = (err, q', tr) ->
  (ddlJobs h <> [] ->
     tr = [EvExecute h; EvExecuteHistoryDDLs (ddlJobs h) err] /\
     err = fst (ExecuteHistoryDDLs env (ddlJobs h) (world q))) /\
  (forall ddl rest, ddlJobs h = [] -> ddlSQLs h = ddl :: rest ->
     exists tr', tr = EvExecute h :: EvExecuteDDL "" ddl
                        (fst (ExecuteDDL env "" ddl (world q))) :: tr').
Proof.
  intros Hrun. unfold execute, bind, emit, call in Hrun. split.
  - intros Hjobs. destruct (ddlJobs h) as [|job jobs]; [contradiction|].
    simpl in Hrun.
    destruct (ExecuteHistoryDDLs env (job :: jobs) (world q)) as [e w].
    inversion Hrun; subst. now split.
  - intros ddl rest Hjobs Hsql. rewrite Hjobs, Hsql in Hrun. simpl in Hrun.
    unfold bind, call in Hrun.
    destruct (ExecuteDDL env "" ddl (world q)) as [[e|] w]; simpl.
    + inversion Hrun; subst. now exists [].
    + destruct (executeDDLs env rest _) as [[e p3] tr3].
      inversion Hrun; subst. now exists tr3.
Qed.

(** C10, as the code has it: for a schema file that can be read,
    [LoadBaseSchema] returns its content split at the newlines, empty
    pieces included (joined by newlines the pieces give the content back,
    no piece holds a newline, and there is one piece more than there are
    newlines); [execute] hands these pieces to [ExecuteDDL] in file order,
    empty ones too, up to and including the first one [ExecuteDDL]
    refuses, and all of them when none is refused. *)
Theorem LoadBaseSchema_lines_to_ExecuteDDL (r : PITR)
    (p p1 q q' : Proc World) (ddls : list string) (err : option error)
    (tr1 tr : list Event) :
  LoadBaseSchema env r p = ((ddls, None), p1, tr1) ->
  execute env (mkHandler ddls []) q = (err, q', tr) ->
  exists content,
    ioutil_ReadFile env (schemaFile (cfg r)) (world p) =
      ((content, None), world p1) /\
    ddls = strings_Split content newline /\
    strings_Join ddls newline = content /\
    Forall (fun ddl => contains ddl newline = false) ddls /\
    length ddls = S (occurrences content newline) /\
    match err with
    | None =>
        tr = EvExecute (mkHandler ddls []) ::
             map (fun ddl => EvExecuteDDL "" ddl None) ddls
    | Some _ =>
        exists done ddl rest,
          ddls = done ++ ddl :: rest /\
          tr = EvExecute (mkHandler ddls []) ::
               map (fun ddl => EvExecuteDDL "" ddl None) done ++
               [EvExecuteDDL "" ddl err]
    end.
Proof.
  intros Hload Hexec.
  apply LoadBaseSchema_run in Hload
    as (content & e & Hread & _ & _ & <- & ->).
  exists content. split; [exact Hread|]. split; [reflexivity|].
  split; [apply strings_Join_Split|].
  split; [apply strings_Split_pieces|].
  split; [apply strings_Split_length|].
  unfold execute, bind, emit in Hexec. simpl in Hexec.
  destruct (executeDDLs env (strings_Split content newline) q)
    as [[e p2] tr2] eqn:Hloop.
  inversion Hexec; subst; clear Hexec.
  apply executeDDLs_run in Hloop as [_ Htr].
  destruct err as [e|].
  - destruct Htr as (done & ddl & rest & Hsplit & ->).
    now exists done, ddl, rest.
  - now rewrite Htr.
Qed.
End SchemaFile.

(** The schema file of [script0] has a blank line and ends in a newline:
    four pieces, two of them empty, all handed to [ExecuteDDL]. *)
Lemma LoadBaseSchema_lines_to_ExecuteDDL_witness :
  exists content,
    ioutil_ReadFile (scripted script0) "schema.sql" [] =
      ((content, None), []) /\
    ["create table a (x int);"; ""; "create table b (y int);"; ""] =
      strings_Split content newline /\
    strings_Join
      ["create table a (x int);"; ""; "create table b (y int);"; ""] newline =
      content /\
    Forall (fun ddl => contains ddl newline = false)
      ["create table a (x int);"; ""; "create table b (y int);"; ""] /\
    length ["create table a (x int);"; ""; "create table b (y int);"; ""] =
      S (occurrences content newline) /\
    [EvExecute
       (mkHandler
          ["create table a (x int);"; ""; "create table b (y int);"; ""] []);
     EvExecuteDDL "" "create table a (x int);" None;
     EvExecuteDDL "" "" None;
     EvExecuteDDL "" "create table b (y int);" None;
     EvExecuteDDL "" "" None] =
    EvExecute
      (mkHandler
         ["create table a (x int);"; ""; "create table b (y int);"; ""] []) ::
    map (fun ddl => EvExecuteDDL "" ddl None)
      ["create table a (x int);"; ""; "create table b (y int);"; ""].
Proof.
  apply (LoadBaseSchema_lines_to_ExecuteDDL (scripted script0) withFile
           fresh fresh fresh
           (mkProc
              ["create table a (x int);"; ""; "create table b (y int);"; ""]
              ∅)
           ["create table a (x int);"; ""; "create table b (y int);"; ""]
           None
           [EvReadFile "schema.sql" (schemaContent script0) None]).
  - reflexivity.
  - reflexivity.
Defined.

(** The claim of C10 fails where [ExecuteDDL] refuses a statement: the
    file of [script_refusing] has two lines, the catalog refuses the
    first, and the second is never handed to [ExecuteDDL]. *)
Lemma execute_stops_at_refused_statement :
  LoadBaseSchema (scripted script_refusing) withFile fresh =
    ((["drop table a;"; "create table b (y int);"], None), fresh,
     [EvReadFile "schema.sql" (schemaContent script_refusing) None]) /\
  execute (scripted script_refusing)
    (mkHandler ["drop table a;"; "create table b (y int);"] []) fresh =
    (Some (ErrNew "refused"), fresh,
     [EvExecute (mkHandler ["drop table a;"; "create table b (y int);"] []);
      EvExecuteDDL "" "drop table a;" (Some (ErrNew "refused"))]) /\
  (forall e,
     ~ In (EvExecuteDDL "" "create table b (y int);" e)
       (snd (execute (scripted script_refusing)
               (mkHandler ["drop table a;"; "create table b (y int);"] [])
               fresh))).
Proof.
  split; [reflexivity|]. split; [reflexivity|].
  intros e Hin. simpl in Hin. intuition discriminate.
Qed.

(** ** The state machine of [Process] *)

Section Orchestrator.
Context {World Storage Version Snapshot Merge : Type}.
Context (env : Collaborators World Storage Version Snapshot Merge).
Context {sorter : SliceSorter}.

Lemma mapReduce_run (r : PITR) (merge : Merge) (startTSO : Z)
    (h : historyDDLHandler) (p p' : Proc World) (err : option error)
    (tr : list Event) :
  mapReduce env r merge startTSO h p = (err, p', tr) ->
  mapReduce_outcome startTSO (StopTSO (cfg r)) err tr.
Proof.
  unfold mapReduce, bind, ret. intros Hrun.
  destruct (execute env h p) as [[e1 p1] pass1] eqn:Hpass1.
  apply execute_run in Hpass1 as (_ & _ & Hcat1 & Hex1 & _).
  destruct e1 as [e1|].
  { inversion Hrun; subst; clear Hrun. rewrite app_nil_r.
    now apply first_pass_failed with (e := e1). }
  unfold call in Hrun.
  destruct (merge_Map env merge startTSO (StopTSO (cfg r)) (world p1))
    as [[noEventIsFound [e|]] w]; simpl in Hrun.
  { inversion Hrun; subst; clear Hrun.
    apply map_failed with (e := e) (noEventIsFound := noEventIsFound)
      (pass1 := pass1); auto. }
  destruct noEventIsFound.
  { unfold emit in Hrun. inversion Hrun; subst; clear Hrun.
    eapply no_event_found with (pass1 := pass1); auto. }
  destruct (execute env h _) as [[e2 p2] pass2] eqn:Hpass2 in Hrun.
  apply execute_run in Hpass2 as (_ & _ & Hcat2 & Hex2 & _).
  destruct e2 as [e2|].
  { inversion Hrun; subst; clear Hrun. rewrite app_nil_r.
    apply second_pass_failed with (e := e2) (pass1 := pass1) (pass2 := pass2);
      auto. }
  destruct (merge_Reduce env merge (world p2)) as [e w'].
  inversion Hrun; subst; clear Hrun.
  apply reduced with (pass1 := pass1) (pass2 := pass2); auto.
Qed.
Lemma fetchDDLBeforeStartTSO_events (r : PITR) (startTSO : Z)
    (p p' : Proc World) (h : historyDDLHandler) (err : option error)
    (tr : list Event) :
  fetchDDLBeforeStartTSO env r startTSO p = ((h, err), p', tr) ->
  Forall (fun ev => before_merge ev = true) tr.
Proof.
  unfold fetchDDLBeforeStartTSO, bind, ret. intros Hrun.
  destruct (negb (String.length (schemaFile (cfg r)) =? 0)%nat).
  - destruct (LoadBaseSchema env r p) as [[[sqls e] p1] tr1] eqn:Hload.
    inversion Hrun; subst; clear Hrun.
    apply LoadBaseSchema_run in Hload as (content & e' & _ & -> & _).
    repeat constructor.
  - destruct (negb (String.length (PDURLs (cfg r)) =? 0)%nat).
    + destruct (loadHistoryDDLJobs env r startTSO p) as [[[jobs e] p1] tr1]
        eqn:Hload.
      inversion Hrun; subst; clear Hrun. rewrite app_nil_r.
      apply loadHistoryDDLJobs_run in Hload as [_ Hev].
      eapply List.Forall_impl; [|exact Hev]. simpl.
      unfold before_merge. now intros ev [-> | ->].
    + inversion Hrun; subst. constructor.
Qed.

Lemma Process_run (r : PITR) (p p' : Proc World) (err : option error)
    (tr : list Event) :
  Process env r p = (err, p', tr) -> Process_outcome r err tr.
Proof.
  unfold Process, defer, bind, call, ret. intros Hrun.
  destruct (searchFiles env (Dir (cfg r)) (world p)) as [[files [e|]] w1];
    simpl in Hrun.
  { inversion Hrun; subst. apply stopped_before_merge. repeat constructor. }
  destruct (length files =? 0)%nat; simpl in Hrun.
  { inversion Hrun; subst. apply stopped_before_merge. repeat constructor. }
  destruct (filterFiles env files (StartTSO (cfg r)) (StopTSO (cfg r)) w1)
    as [[[kept fileSize] [e|]] w2]; simpl in Hrun.
  { inversion Hrun; subst. apply stopped_before_merge. repeat constructor. }
  destruct kept as [|file0 kept].
  { inversion Hrun; subst. apply stopped_before_merge. repeat constructor. }
  set (sf := EvSearchFiles (Dir (cfg r)) files None) in *.
  set (ff := EvFilterFiles files (StartTSO (cfg r)) (StopTSO (cfg r))
               (file0 :: kept) fileSize None) in *.
  destruct (if StartTSO (cfg r) =? 0 then _ else _) as [[[startTSO e] p3] tr3]
    eqn:Hstart in Hrun.
  assert (Htr3 : Forall (fun ev => before_merge ev = true) tr3).
  { destruct (StartTSO (cfg r) =? 0); simpl in Hstart.
    - destruct (getFirstBinlogCommitTSAndFileSize env file0 w2)
        as [[[ts sz] e'] w3].
      inversion Hstart; subst. repeat constructor.
    - inversion Hstart; subst. constructor. }
  clear Hstart.
  destruct e as [e|].
  { inversion Hrun; subst. apply stopped_before_merge.
    rewrite app_nil_r. repeat constructor. exact Htr3. }
  destruct (fetchDDLBeforeStartTSO env r startTSO p3) as [[[h e] p4] tr4]
    eqn:Hfetch.
  apply fetchDDLBeforeStartTSO_events in Hfetch.
  assert (Hpre : Forall (fun ev => before_merge ev = true)
                   ([sf] ++ [ff] ++ tr3 ++ tr4)).
  { repeat constructor. now apply Forall_app. }
  destruct e as [e|].
  { inversion Hrun; subst. apply stopped_before_merge.
    rewrite app_nil_r. exact Hpre. }
  destruct (NewMerge env (file0 :: kept) fileSize (world p4))
    as [[merge [e|]] w5]; simpl in Hrun.
  { inversion Hrun; subst; clear Hrun.
    apply merge_not_created with (pre := [sf] ++ [ff] ++ tr3 ++ tr4)
      (files := file0 :: kept) (fileSize := fileSize) (e := e);
      [reflexivity | | exact Hpre].
    simpl. now rewrite <- ?app_assoc. }
  destruct (mapReduce env r merge startTSO h _) as [[e p6] run] eqn:Hmr
    in Hrun.
  apply mapReduce_run in Hmr.
  inversion Hrun; subst; clear Hrun.
  apply merged with (pre := [sf] ++ [ff] ++ tr3 ++ tr4) (run := run)
    (files := file0 :: kept) (fileSize := fileSize) (startTSO := startTSO);
    [| exact Hpre | exact Hmr].
  simpl. now rewrite <- ?app_assoc.
Qed.
End Orchestrator.

Lemma executions_app (l l' : list Event) :
  executions (l ++ l') = (executions l + executions l')%nat.
Proof. unfold executions. now rewrite List.filter_app, length_app. Qed.

Lemma executions_before_merge (l : list Event) :
  Forall (fun ev => before_merge ev = true) l -> executions l = 0%nat.
Proof.
  induction 1 as [|ev l Hev _ IH]; [reflexivity|].
  unfold executions in *. simpl.
  destruct ev; simpl; try exact IH. discriminate Hev.
Qed.

Lemma In_component (c : Component) (ev : Event) (l : list Event) :
  Forall (fun ev => component ev = c) l -> In ev l -> component ev = c.
Proof. rewrite List.Forall_forall. auto. Qed.

Lemma In_before_merge (ev : Event) (l : list Event) :
  Forall (fun ev => before_merge ev = true) l -> In ev l ->
  before_merge ev = true.
Proof. rewrite List.Forall_forall. auto. Qed.

Section ProcessClaims.
Context {World Storage Version Snapshot Merge : Type}.
Context (env : Collaborators World Storage Version Snapshot Merge).
Context {sorter : SliceSorter}.

(** C1: in a run of [Process] in which [Map] reports, without error, that
    no event was found, [Process] returns no error, [Reduce] is not
    called, [execute] is entered once only (the pass before [Map]), and
    after [Map] the run makes two more calls: the log entry and
    [merge.Close]. *)
Theorem Process_no_event_short_circuit (r : PITR) (p p' : Proc World)
    (err : option error) (tr : list Event) (startTSO stopTSO : Z) :
  Process env r p = (err, p', tr) ->
  In (EvMap startTSO stopTSO true None) tr ->
  err = None /\
  (forall e, ~ In (EvReduce e) tr) /\
  executions tr = 1%nat /\
  stopTSO = StopTSO (cfg r) /\
  exists pre msg,
    tr = pre ++ [EvMap startTSO stopTSO true None; EvLogInfo msg;
                 EvMergeClose (reserveTempDir (cfg r))] /\
    executions pre = 1%nat.
Proof.
  intros Hrun Hmap. apply Process_run in Hrun.
  destruct Hrun as [Hpre | pre files fileSize e _ -> Hpre
                   | pre run files fileSize start -> Hpre Hout].
  - apply (In_before_merge _ _ Hpre) in Hmap. discriminate Hmap.
  - apply in_app_or in Hmap as [Hmap|[Hmap|[]]]; [|discriminate Hmap].
    apply (In_before_merge _ _ Hpre) in Hmap. discriminate Hmap.
  - apply in_app_or in Hmap as [Hmap|[Hmap|Hmap]]; [| discriminate Hmap |].
    { apply (In_before_merge _ _ Hpre) in Hmap. discriminate Hmap. }
    apply in_app_or in Hmap as [Hmap|[Hmap|[]]]; [|discriminate Hmap].
    destruct Hout as [e _ Hcat _
                     | e n pass1 _ -> Hcat _
                     | msg pass1 -> -> Hcat Hex
                     | e pass1 pass2 _ -> Hcat1 _ Hcat2 _
                     | pass1 pass2 -> Hcat1 _ Hcat2 _].
    + apply (In_component _ _ _ Hcat) in Hmap. discriminate Hmap.
    + apply in_app_or in Hmap as [Hmap|[Hmap|[]]]; [|discriminate Hmap].
      apply (In_component _ _ _ Hcat) in Hmap. discriminate Hmap.
    + apply in_app_or in Hmap as [Hmap|[Hmap|[Hmap|[]]]];
        [| |discriminate Hmap].
      { apply (In_component _ _ _ Hcat) in Hmap. discriminate Hmap. }
      inversion Hmap; subst; clear Hmap.
      split; [reflexivity|]. split; [|split; [|split; [reflexivity|]]].
      * intros e Hin. rewrite ?in_app_iff in Hin. simpl in Hin.
        rewrite ?in_app_iff in Hin. simpl in Hin.
        destruct Hin as [Hin|[Hin|[[Hin|[Hin|[Hin|[]]]]|[Hin|[]]]]];
          try discriminate Hin.
        -- apply (In_before_merge _ _ Hpre) in Hin. discriminate Hin.
        -- apply (In_component _ _ _ Hcat) in Hin. discriminate Hin.
      * change (EvNewMerge files fileSize None ::
                (pass1 ++ [EvMap startTSO (StopTSO (cfg r)) true None;
                           EvLogInfo msg]) ++
                [EvMergeClose (reserveTempDir (cfg r))])
          with ([EvNewMerge files fileSize None] ++
                (pass1 ++ [EvMap startTSO (StopTSO (cfg r)) true None;
                           EvLogInfo msg]) ++
                [EvMergeClose (reserveTempDir (cfg r))]).
        rewrite !executions_app, Hex, (executions_before_merge _ Hpre).
        reflexivity.
      * exists (pre ++ EvNewMerge files fileSize None :: pass1), msg. split.
        -- repeat (rewrite <- app_assoc; simpl). reflexivity.
        -- change (EvNewMerge files fileSize None :: pass1)
             with ([EvNewMerge files fileSize None] ++ pass1).
           rewrite !executions_app, Hex, (executions_before_merge _ Hpre).
           reflexivity.
    + apply in_app_or in Hmap as [Hmap|[Hmap|Hmap]]; [|discriminate Hmap|].
      * apply (In_component _ _ _ Hcat1) in Hmap. discriminate Hmap.
      * apply (In_component _ _ _ Hcat2) in Hmap. discriminate Hmap.
    + apply in_app_or in Hmap as [Hmap|[Hmap|Hmap]]; [|discriminate Hmap|].
      * apply (In_component _ _ _ Hcat1) in Hmap. discriminate Hmap.
      * apply in_app_or in Hmap as [Hmap|[Hmap|[]]]; [|discriminate Hmap].
        apply (In_component _ _ _ Hcat2) in Hmap. discriminate Hmap.
Qed.

(** C2, as the code has it: when [searchFiles] finds no file, and when
    [filterFiles] keeps none, [Process] returns [errors.Annotate(err, ...)]
    with [err] being [nil], which is [nil]: the run ends there and reports
    success. *)
Theorem Process_without_files_returns_nil (r : PITR) (p : Proc World) :
  (forall w,
     searchFiles env (Dir (cfg r)) (world p) = (([], None), w) ->
     Process env r p =
       (None, mkProc w (stores p), [EvSearchFiles (Dir (cfg r)) [] None])) /\
  (forall file files fileSize w w',
     searchFiles env (Dir (cfg r)) (world p) = ((file :: files, None), w) ->
     filterFiles env (file :: files) (StartTSO (cfg r)) (StopTSO (cfg r)) w =
       (([], fileSize, None), w') ->
     Process env r p =
       (None, mkProc w' (stores p),
        [EvSearchFiles (Dir (cfg r)) (file :: files) None;
         EvFilterFiles (file :: files) (StartTSO (cfg r)) (StopTSO (cfg r))
           [] fileSize None])).
Proof.
  split.
  - intros w Hsearch. unfold Process, bind, call, ret.
    rewrite Hsearch. reflexivity.
  - intros file files fileSize w w' Hsearch Hfilter.
    unfold Process, bind, call, ret. rewrite Hsearch. simpl.
    rewrite Hfilter. reflexivity.
Qed.
End ProcessClaims.

Lemma Process_no_event_short_circuit_witness :
  (None : option error) = None /\
  (forall e,
     ~ In (EvReduce e)
       [EvSearchFiles "/data" ["binlog-0"; "binlog-1"] None;
        EvFilterFiles ["binlog-0"; "binlog-1"] 12 26
          ["binlog-0"; "binlog-1"] 64 None;
        EvReadFile "schema.sql" "create table a (x int);" None;
        EvNewMerge ["binlog-0"; "binlog-1"] 64 None;
        EvExecute (mkHandler ["create table a (x int);"] []);
        EvExecuteDDL "" "create table a (x int);" None;
        EvMap 12 26 true None;
        EvLogInfo "no event is found between [12, 26]";
        EvMergeClose false]) /\
  executions
    [EvSearchFiles "/data" ["binlog-0"; "binlog-1"] None;
     EvFilterFiles ["binlog-0"; "binlog-1"] 12 26
       ["binlog-0"; "binlog-1"] 64 None;
     EvReadFile "schema.sql" "create table a (x int);" None;
     EvNewMerge ["binlog-0"; "binlog-1"] 64 None;
     EvExecute (mkHandler ["create table a (x int);"] []);
     EvExecuteDDL "" "create table a (x int);" None;
     EvMap 12 26 true None;
     EvLogInfo "no event is found between [12, 26]";
     EvMergeClose false] = 1%nat /\
  26 = StopTSO (cfg withFile) /\
  exists pre msg,
    [EvSearchFiles "/data" ["binlog-0"; "binlog-1"] None;
     EvFilterFiles ["binlog-0"; "binlog-1"] 12 26
       ["binlog-0"; "binlog-1"] 64 None;
     EvReadFile "schema.sql" "create table a (x int);" None;
     EvNewMerge ["binlog-0"; "binlog-1"] 64 None;
     EvExecute (mkHandler ["create table a (x int);"] []);
     EvExecuteDDL "" "create table a (x int);" None;
     EvMap 12 26 true None;
     EvLogInfo "no event is found between [12, 26]";
     EvMergeClose false] =
    pre ++ [EvMap 12 26 true None; EvLogInfo msg;
            EvMergeClose (reserveTempDir (cfg withFile))] /\
    executions pre = 1%nat.
Proof.
  apply (Process_no_event_short_circuit (sorter := insertionSorter)
           (scripted script_empty_window) withFile fresh
           (mkProc ["create table a (x int);"] ∅)).
  - reflexivity.
  - simpl. tauto.
Defined.

(** In a directory without shards, and in one whose shards all lie
    outside the window, [Process] returns [nil]. *)
Lemma Process_without_files_returns_nil_witness :
  Process (sorter := insertionSorter) (scripted script_no_files) withFile
    fresh =
    (None, fresh, [EvSearchFiles "/data" [] None]) /\
  Process (sorter := insertionSorter) (scripted script_none_in_window)
    withFile fresh =
    (None, fresh,
     [EvSearchFiles "/data" ["binlog-0"; "binlog-1"] None;
      EvFilterFiles ["binlog-0"; "binlog-1"] 12 26 [] 64 None]).
Proof.
  split.
  - apply (proj1 (Process_without_files_returns_nil
                    (sorter := insertionSorter) (scripted script_no_files)
                    withFile fresh) []).
    reflexivity.
  - apply (proj2 (Process_without_files_returns_nil
                    (sorter := insertionSorter)
                    (scripted script_none_in_window) withFile fresh)
             "binlog-0" ["binlog-1"] 64 [] []); reflexivity.
Defined.

(** * Further properties of [pitr.go] *)

(** ** The window *)

(** A window accepts every event a window inside it accepts: the start
    may move down, and the stop may move up or be dropped (0). *)
Theorem isAcceptableBinlog_widen (binlog : Binlog)
    (startTs endTs startTs' endTs' : Z) :
  isAcceptableBinlog binlog startTs endTs = true ->
  startTs' <= startTs ->
  endTs' = 0 \/ (endTs <> 0 /\ endTs <= endTs') ->
  isAcceptableBinlog binlog startTs' endTs' = true.
Proof.
  unfold isAcceptableBinlog.
  rewrite !andb_true_iff, !orb_true_iff, !Z.geb_le, !Z.leb_le, !Z.eqb_eq.
  lia.
Qed.

Lemma isAcceptableBinlog_widen_witness :
  isAcceptableBinlog (mkBinlog 14 15) 10 0 = true.
Proof.
  apply (isAcceptableBinlog_widen (mkBinlog 14 15) 12 26 10 0);
    [reflexivity | lia | now left].
Defined.

(** A window whose stop is set and lies before its start accepts
    nothing. *)
Theorem isAcceptableBinlog_empty_window (binlog : Binlog)
    (startTs endTs : Z) :
  endTs <> 0 -> endTs < startTs ->
  isAcceptableBinlog binlog startTs endTs = false.
Proof.
  intros Hset Hlt. unfold isAcceptableBinlog.
  destruct (CommitTs binlog >=? startTs) eqn:Hge; [|reflexivity].
  apply Z.geb_le in Hge. simpl.
  apply orb_false_iff. split; [now apply Z.eqb_neq | apply Z.leb_gt; lia].
Qed.

Lemma isAcceptableBinlog_empty_window_witness :
  isAcceptableBinlog (mkBinlog 14 20) 26 12 = false.
Proof.
  apply (isAcceptableBinlog_empty_window (mkBinlog 14 20) 26 12); lia.
Defined.

(** ** More on the history DDL jobs *)

Lemma ignored_jobs_app (l l' : list Event) :
  ignored_jobs (l ++ l') = ignored_jobs l ++ ignored_jobs l'.
Proof.
  induction l as [|ev l IH]; [reflexivity|].
  destruct ev; simpl; now rewrite ?IH.
Qed.

Lemma ignored_jobs_logged (jobs : list Job) :
  ignored_jobs (map EvLogIgnoreJob jobs) = jobs.
Proof. induction jobs as [|j jobs IH]; simpl; now rewrite ?IH. Qed.

Lemma ignored_jobs_store (l : list Event) :
  Forall (fun ev => component ev = StoreCluster) l -> ignored_jobs l = [].
Proof.
  induction 1 as [|ev l Hev _ IH]; [reflexivity|].
  destruct ev; simpl; try exact IH; discriminate Hev.
Qed.

Lemma ascending_by_schemaVersion (l : list Job) :
  ascending lessSchemaVersion l ->
  StronglySorted (fun a b => schemaVersion a <= schemaVersion b) l.
Proof.
  unfold ascending. induction 1 as [|a l Hl IH Ha]; constructor; [exact IH|].
  eapply List.Forall_impl; [|exact Ha]. simpl. intros b Hb.
  unfold lessSchemaVersion in Hb. apply Z.ltb_ge in Hb. exact Hb.
Qed.

Lemma filter_split_Permutation {A : Type} (keep : A -> bool) (l : list A) :
  Permutation l
    (List.filter keep l ++ List.filter (fun a => negb (keep a)) l).
Proof.
  induction l as [|a l IH]; simpl; [constructor|].
  destruct (keep a); simpl.
  - now constructor.
  - now apply Permutation_cons_app.
Qed.

Section MoreHistoryJobs.
Context {World Storage Version Snapshot Merge : Type}.
Context (env : Collaborators World Storage Version Snapshot Merge).
Context {sorter : SliceSorter}.

(** A run of [loadHistoryDDLJobs] in which the enumeration answered with
    [allJobs]: the calls before it all went to the store, and after it
    come the log entries, the close and the de-registration. *)
Lemma loadHistoryDDLJobs_enumerated (r : PITR) (beginTS : Z)
    (p p' : Proc World) (jobs allJobs : list Job) (err : option error)
    (tr : list Event) :
  loadHistoryDDLJobs env r beginTS p = ((jobs, err), p', tr) ->
  In (EvGetAllHistoryDDLJobs allJobs None) tr ->
  exists pre,
    Forall (fun ev => component ev = StoreCluster) pre /\
    err = None /\
    jobs = List.filter (finishedBefore beginTS)
             (sort_Slice allJobs lessSchemaVersion) /\
    tr = pre ++ EvGetAllHistoryDDLJobs allJobs None ::
         map EvLogIgnoreJob
           (List.filter (fun job => negb (finishedBefore beginTS job))
              (sort_Slice allJobs lessSchemaVersion)) ++
         [EvStoreClose; EvUnRegister "tikv"].
Proof.
  unfold loadHistoryDDLJobs, readHistoryDDLJobs, defer, bind, ret.
  intros Hrun Hin.
  destruct (createTiStore env (PDURLs (cfg r)) p) as [[created p1] tr1]
    eqn:Hcreate.
  apply createTiStore_run in Hcreate as (Htr1 & _).
  assert (Hno1 : forall a, ~ In (EvGetAllHistoryDDLJobs a None) tr1).
  { intros a Ha. rewrite List.Forall_forall in Htr1.
    apply Htr1 in Ha as [_ Ha]. discriminate Ha. }
  destruct created as [tiStore|e].
  2:{ inversion Hrun; subst. rewrite app_nil_r in Hin.
      now apply Hno1 in Hin. }
  destruct (getSnapshotMeta env tiStore p1) as [[got p2] tr2] eqn:Hmeta.
  apply getSnapshotMeta_run in Hmeta as (Htr2 & _).
  assert (Hno2 : forall a, ~ In (EvGetAllHistoryDDLJobs a None) tr2).
  { intros a Ha. rewrite List.Forall_forall in Htr2.
    apply Htr2 in Ha as [_ Ha]. discriminate Ha. }
  destruct got as [snapMeta|e]; unfold call, store_UnRegister in Hrun;
    simpl in Hrun.
  2:{ inversion Hrun; subst. exfalso.
      rewrite ?in_app_iff in Hin. simpl in Hin.
      destruct Hin as [Hin|[[Hin|[]]|[Hin|[Hin|[]]]]];
        try discriminate Hin; [now apply Hno1 in Hin | now apply Hno2 in Hin]. }
  destruct (GetAllHistoryDDLJobs env snapMeta (world p2))
    as [[all [e|]] w] eqn:Hall; simpl in Hrun.
  { inversion Hrun; subst. exfalso.
    rewrite ?in_app_iff in Hin. simpl in Hin.
    destruct Hin as [Hin|[[Hin|[Hin|[]]]|[Hin|[Hin|[]]]]];
      try discriminate Hin; [now apply Hno1 in Hin | now apply Hno2 in Hin]. }
  rewrite selectJobs_run in Hrun. inversion Hrun; subst; clear Hrun.
  assert (all = allJobs) as ->.
  { rewrite ?in_app_iff in Hin. simpl in Hin.
    rewrite ?in_app_iff in Hin. simpl in Hin.
    destruct Hin as [Hin|[[Hin|[Hin|[Hin|[]]]]|[Hin|[Hin|[]]]]];
      try discriminate Hin.
    - now apply Hno1 in Hin.
    - now apply Hno2 in Hin.
    - now inversion Hin.
    - apply in_map_iff in Hin as (j & Hj & _). discriminate Hj. }
  exists (tr1 ++ tr2). split; [|split; [reflexivity|split; [reflexivity|]]].
  - apply Forall_app. split.
    + eapply List.Forall_impl; [|exact Htr1]. simpl. now intros ev [Hev _].
    + eapply List.Forall_impl; [|exact Htr2]. simpl. now intros ev [Hev _].
  - simpl. rewrite app_nil_r. now rewrite <- !app_assoc.
Qed.

(** No enumerated job is lost: the jobs returned and the jobs logged as
    ignored are together the enumerated jobs, each as often as it was
    enumerated; the logged ones are those whose finishedTS is not below
    the begin timestamp, and they are logged in ascending order of schema
    version. *)
Theorem loadHistoryDDLJobs_returns_or_logs (r : PITR) (beginTS : Z)
    (p p' : Proc World) (jobs allJobs : list Job) (err : option error)
    (tr : list Event) :
  loadHistoryDDLJobs env r beginTS p = ((jobs, err), p', tr) ->
  In (EvGetAllHistoryDDLJobs allJobs None) tr ->
  Permutation allJobs (jobs ++ ignored_jobs tr) /\
  Forall (fun J => beginTS <= finishedTS J) (ignored_jobs tr) /\
  StronglySorted (fun a b => schemaVersion a <= schemaVersion b)
    (ignored_jobs tr).
Proof.
  intros Hrun Hin.
  destruct (loadHistoryDDLJobs_enumerated _ _ _ _ _ _ _ _ Hrun Hin)
    as (pre & Hpre & _ & -> & ->).
  rewrite ignored_jobs_app, (ignored_jobs_store _ Hpre). simpl.
  rewrite ignored_jobs_app, ignored_jobs_logged. simpl. rewrite app_nil_r.
  split; [|split].
  - rewrite <- filter_split_Permutation. apply sort_Slice_Permutation.
  - apply List.Forall_forall. intros J HJ.
    apply List.filter_In in HJ as [_ HJ].
    unfold finishedBefore, finishedTS in *.
    apply negb_true_iff, Z.ltb_ge in HJ. exact HJ.
  - apply StronglySorted_filter_keep, ascending_by_schemaVersion.
    apply sort_Slice_ascending, lessSchemaVersion_strict_weak_ordering.
Qed.

(** The conversion at line 160 wraps: a job whose [FinishedTS] is 2^63 or
    more reads as finished before every begin timestamp that is not
    negative, and is returned. *)
Theorem loadHistoryDDLJobs_keeps_wrapped_FinishedTS (r : PITR)
    (beginTS : Z) (p p' : Proc World) (jobs allJobs : list Job)
    (err : option error) (tr : list Event) (J : Job) :
  loadHistoryDDLJobs env r beginTS p = ((jobs, err), p', tr) ->
  In (EvGetAllHistoryDDLJobs allJobs None) tr ->
  In J allJobs ->
  2 ^ 63 <= FinishedTS (BinlogInfo J) < 2 ^ 64 ->
  0 <= beginTS ->
  In J jobs.
Proof.
  intros Hrun Hin HJ Hts Hbegin.
  destruct (loadHistoryDDLJobs_enumerated _ _ _ _ _ _ _ _ Hrun Hin)
    as (pre & _ & _ & -> & _).
  apply List.filter_In. split.
  - eapply Permutation_in; [apply sort_Slice_Permutation | exact HJ].
  - unfold finishedBefore, int64_of_uint64.
    destruct (FinishedTS (BinlogInfo J) <? 2 ^ 63) eqn:Hlt.
    + apply Z.ltb_lt in Hlt. lia.
    + apply Z.ltb_lt. lia.
Qed.
End MoreHistoryJobs.

Lemma loadHistoryDDLJobs_returns_or_logs_witness :
  Permutation [job_v5; job_v1; job_v3]
    ([job_v1; job_v5] ++
     ignored_jobs
       [EvRegister "tikv" None;
        EvStoreNew "tikv://127.0.0.1:2379?disableGC=true" None;
        EvCurrentVersion None; EvGetSnapshot None;
        EvGetAllHistoryDDLJobs [job_v5; job_v1; job_v3] None;
        EvLogIgnoreJob job_v3; EvStoreClose; EvUnRegister "tikv"]) /\
  Forall (fun J => 100 <= finishedTS J)
    (ignored_jobs
       [EvRegister "tikv" None;
        EvStoreNew "tikv://127.0.0.1:2379?disableGC=true" None;
        EvCurrentVersion None; EvGetSnapshot None;
        EvGetAllHistoryDDLJobs [job_v5; job_v1; job_v3] None;
        EvLogIgnoreJob job_v3; EvStoreClose; EvUnRegister "tikv"]) /\
  StronglySorted (fun a b => schemaVersion a <= schemaVersion b)
    (ignored_jobs
       [EvRegister "tikv" None;
        EvStoreNew "tikv://127.0.0.1:2379?disableGC=true" None;
        EvCurrentVersion None; EvGetSnapshot None;
        EvGetAllHistoryDDLJobs [job_v5; job_v1; job_v3] None;
        EvLogIgnoreJob job_v3; EvStoreClose; EvUnRegister "tikv"]).
Proof.
  apply (loadHistoryDDLJobs_returns_or_logs (sorter := insertionSorter)
           (scripted script0) withStore 100 fresh
           (mkProc [] (delete "tikv" (<["tikv" := TikvDriver]> ∅)))
           [job_v1; job_v5] [job_v5; job_v1; job_v3] None).
  - reflexivity.
  - simpl. tauto.
Defined.

Lemma loadHistoryDDLJobs_keeps_wrapped_FinishedTS_witness :
  In job_wrapped [job_v1; job_v5; job_wrapped].
Proof.
  apply (loadHistoryDDLJobs_keeps_wrapped_FinishedTS
           (sorter := insertionSorter) (scripted script_wrapped) withStore
           100 fresh
           (mkProc [] (delete "tikv" (<["tikv" := TikvDriver]> ∅)))
           [job_v1; job_v5; job_wrapped]
           [job_v5; job_wrapped; job_v1; job_v3] None
           [EvRegister "tikv" None;
            EvStoreNew "tikv://127.0.0.1:2379?disableGC=true" None;
            EvCurrentVersion None; EvGetSnapshot None;
            EvGetAllHistoryDDLJobs [job_v5; job_wrapped; job_v1; job_v3] None;
            EvLogIgnoreJob job_v3; EvStoreClose; EvUnRegister "tikv"]).
  - reflexivity.
  - simpl. tauto.
  - simpl. tauto.
  - simpl. lia.
  - lia.
Defined.

(** ** More on the driver registry *)

Section MoreStoreRegistry.
Context {World Storage Version Snapshot Merge : Type}.
Context (env : Collaborators World Storage Version Snapshot Merge).
Context {sorter : SliceSorter}.

Lemma readHistoryDDLJobs_stores (tiStore : Storage) (beginTS : Z)
    (p p' : Proc World) (res : list Job * option error) (tr : list Event) :
  readHistoryDDLJobs env tiStore beginTS p = (res, p', tr) ->
  stores p' = stores p.
Proof.
  unfold readHistoryDDLJobs, bind, ret. intros Hrun.
  destruct (getSnapshotMeta env tiStore p) as [[got p1] tr1] eqn:Hmeta.
  apply getSnapshotMeta_run in Hmeta as [_ Hst].
  destruct got as [snapMeta|e]; [|now inversion Hrun; subst].
  unfold call in Hrun.
  destruct (GetAllHistoryDDLJobs env snapMeta (world p1))
    as [[all [e|]] w]; simpl in Hrun.
  - inversion Hrun; subst. exact Hst.
  - rewrite selectJobs_run in Hrun. inversion Hrun; subst. exact Hst.
Qed.

(** After a run of [loadHistoryDDLJobs] in which [store.New] gave a
    store, the registry is what it was before the call, whether the
    snapshot and the enumeration succeeded or not, and the last two calls
    are the close of the store and the de-registration. *)
Theorem loadHistoryDDLJobs_restores_registry (r : PITR) (beginTS : Z)
    (p p' : Proc World) (jobs : list Job) (err : option error)
    (tr : list Event) (path : string) :
  loadHistoryDDLJobs env r beginTS p = ((jobs, err), p', tr) ->
  In (EvStoreNew path None) tr ->
  stores p' = stores p /\
  stores p !! "tikv" = None /\
  exists pre, tr = pre ++ [EvStoreClose; EvUnRegister "tikv"].
Proof.
  intros Hrun Hnew.
  destruct (loadHistoryDDLJobs_releases_created_store _ _ _ _ _ _ _ _ _
              Hrun Hnew) as [Hlast _].
  unfold loadHistoryDDLJobs, defer, bind, ret in Hrun.
  destruct (createTiStore env (PDURLs (cfg r)) p) as [[created p1] tr1]
    eqn:Hcreate.
  destruct created as [tiStore|e].
  - apply createTiStore_run in Hcreate as [_ [Hfree Hst1]].
    destruct (readHistoryDDLJobs env tiStore beginTS p1) as [[res p2] tr2]
      eqn:Hread.
    apply readHistoryDDLJobs_stores in Hread.
    unfold call, store_UnRegister in Hrun. simpl in Hrun.
    inversion Hrun; subst; clear Hrun. simpl.
    split; [|split; [exact Hfree | exact Hlast]].
    rewrite Hread, Hst1. now apply delete_insert_id.
  - exfalso. inversion Hrun; subst; clear Hrun. rewrite app_nil_r in Hnew.
    unfold createTiStore, bind, call, ret, store_Register in Hcreate.
    destruct (flags_NewURLsValue env (PDURLs (cfg r))) as [urlv [e'|]].
    { inversion Hcreate; subst. destruct Hnew. }
    destruct (stores p !! "tikv").
    { inversion Hcreate; subst. simpl in Hnew. intuition discriminate. }
    simpl in Hcreate.
    destruct (store_New env _ _) as [[tiStore [e'|]] w];
      inversion Hcreate; subst; clear Hcreate; simpl in Hnew;
      intuition discriminate.
Qed.

(** Two calls in one process: when [store.New] fails in the first, every
    later call made while the registry is as the first left it, with
    whatever endpoints that parse and in whatever world, fails at
    [store.Register], opens no store and reads no job. *)
Theorem loadHistoryDDLJobs_fails_after_failed_store_New (r r' : PITR)
    (beginTS beginTS' : Z) (p p1 q : Proc World) (urlv urlv' : URLsValue)
    (tiStore : Storage) (e : error) (w : World)
    (res : list Job * option error) (tr1 : list Event) :
  stores p !! "tikv" = None ->
  flags_NewURLsValue env (PDURLs (cfg r)) = (urlv, None) ->
  store_New env ("tikv://" +:+ HostString urlv +:+ "?disableGC=true")
    (world p) = ((tiStore, Some e), w) ->
  loadHistoryDDLJobs env r beginTS p = (res, p1, tr1) ->
  flags_NewURLsValue env (PDURLs (cfg r')) = (urlv', None) ->
  stores q = stores p1 ->
  loadHistoryDDLJobs env r' beginTS' q =
    (([], Some (ErrTrace (ErrTrace (ErrNew "tikv is already registered")))),
     q, [EvRegister "tikv" (Some (ErrNew "tikv is already registered"))]).
Proof.
  intros Hfree Hurls Hnew Hrun Hurls' Hq.
  unfold loadHistoryDDLJobs, createTiStore, bind, call, ret, store_Register
    in Hrun.
  rewrite Hurls, Hfree in Hrun. simpl in Hrun. rewrite Hnew in Hrun.
  simpl in Hrun. inversion Hrun; subst; clear Hrun. simpl in Hq.
  apply (loadHistoryDDLJobs_after_leak env r' beginTS' q urlv' TikvDriver);
    [|exact Hurls'].
  rewrite Hq. apply lookup_insert_eq.
Qed.
End MoreStoreRegistry.

Lemma loadHistoryDDLJobs_restores_registry_witness :
  stores (mkProc ([] : list string)
            (delete "tikv" (<["tikv" := TikvDriver]> ∅))) = stores fresh /\
  stores fresh !! "tikv" = None /\
  exists pre,
    [EvRegister "tikv" None;
     EvStoreNew "tikv://127.0.0.1:2379?disableGC=true" None;
     EvCurrentVersion None; EvGetSnapshot None;
     EvGetAllHistoryDDLJobs [job_v5; job_v1; job_v3] None;
     EvLogIgnoreJob job_v3; EvStoreClose; EvUnRegister "tikv"] =
    pre ++ [EvStoreClose; EvUnRegister "tikv"].
Proof.
  apply (loadHistoryDDLJobs_restores_registry (sorter := insertionSorter)
           (scripted script0) withStore 100 fresh _ [job_v1; job_v5] None _
           "tikv://127.0.0.1:2379?disableGC=true").
  - reflexivity.
  - simpl. tauto.
Defined.

(** The first call could not reach the store; the second does not get as
    far as trying. *)
Lemma loadHistoryDDLJobs_fails_after_failed_store_New_witness :
  loadHistoryDDLJobs (sorter := insertionSorter) (scripted script_unreachable)
    withBoth 12 (mkProc ["create database d"] (<["tikv" := TikvDriver]> ∅)) =
    (([], Some (ErrTrace (ErrTrace (ErrNew "tikv is already registered")))),
     mkProc ["create database d"] (<["tikv" := TikvDriver]> ∅),
     [EvRegister "tikv" (Some (ErrNew "tikv is already registered"))]).
Proof.
  apply (loadHistoryDDLJobs_fails_after_failed_store_New
           (sorter := insertionSorter) (scripted script_unreachable)
           withStore withBoth 100 12 fresh
           (mkProc [] (<["tikv" := TikvDriver]> ∅))
           (mkProc ["create database d"] (<["tikv" := TikvDriver]> ∅))
           (mkURLs ["127.0.0.1:2379"]) (mkURLs ["127.0.0.1:2379"]) tt
           (ErrNew "pd unreachable") []
           ([], Some (ErrTrace (ErrTrace (ErrNew "pd unreachable"))))
           [EvRegister "tikv" None;
            EvStoreNew "tikv://127.0.0.1:2379?disableGC=true"
              (Some (ErrNew "pd unreachable"))]);
    reflexivity.
Defined.

(** ** Errors of the collaborators *)

Lemma existsb_failed_statements (ddls : list string) :
  existsb failed (map (fun ddl => EvExecuteDDL "" ddl None) ddls) = false.
Proof. induction ddls as [|d ddls IH]; [reflexivity | exact IH]. Qed.

Section Errors.
Context {World Storage Version Snapshot Merge : Type}.
Context (env : Collaborators World Storage Version Snapshot Merge).
Context {sorter : SliceSorter}.

(** [execute] returns an error exactly when [ddlHandle] answered with
    one. *)
Lemma execute_failed (h : historyDDLHandler) (p p' : Proc World)
    (err : option error) (tr : list Event) :
  execute env h p = (err, p', tr) -> existsb failed tr = is_error err.
Proof.
  unfold execute, bind, emit, call. intros Hrun.
  destruct (negb (length (ddlJobs h) =? 0)%nat).
  - destruct (ExecuteHistoryDDLs env (ddlJobs h) (world p)) as [e w].
    inversion Hrun; subst. simpl. unfold failed. simpl.
    destruct err; reflexivity.
  - destruct (executeDDLs env (ddlSQLs h) p) as [[e p1] tr1] eqn:Hloop.
    inversion Hrun; subst; clear Hrun.
    apply executeDDLs_run in Hloop as [_ Htr]. simpl.
    destruct err as [e|].
    + destruct Htr as (done & ddl & rest & _ & ->).
      rewrite existsb_app, existsb_failed_statements. reflexivity.
    + subst tr1. apply existsb_failed_statements.
Qed.

Lemma mapReduce_failed (r : PITR) (merge : Merge) (startTSO : Z)
    (h : historyDDLHandler) (p p' : Proc World) (err : option error)
    (tr : list Event) :
  mapReduce env r merge startTSO h p = (err, p', tr) ->
  existsb failed tr = is_error err /\ stores p' = stores p.
Proof.
  unfold mapReduce, bind, ret. intros Hrun.
  destruct (execute env h p) as [[e1 p1] pass1] eqn:Hpass1.
  pose proof (execute_failed _ _ _ _ _ Hpass1) as Hf1.
  apply execute_run in Hpass1 as (_ & _ & _ & _ & Hst1).
  destruct e1 as [e1|].
  { inversion Hrun; subst. now rewrite app_nil_r. }
  unfold call in Hrun.
  destruct (merge_Map env merge startTSO (StopTSO (cfg r)) (world p1))
    as [[noEventIsFound [e|]] w]; simpl in Hrun.
  { inversion Hrun; subst. rewrite existsb_app, Hf1. now split. }
  destruct noEventIsFound.
  { unfold emit in Hrun. inversion Hrun; subst.
    rewrite existsb_app, Hf1. now split. }
  destruct (execute env h _) as [[e2 p2] pass2] eqn:Hpass2 in Hrun.
  pose proof (execute_failed _ _ _ _ _ Hpass2) as Hf2.
  apply execute_run in Hpass2 as (_ & _ & _ & _ & Hst2).
  destruct e2 as [e2|].
  { inversion Hrun; subst. rewrite app_nil_r, existsb_app, Hf1. simpl.
    rewrite Hf2. split; [reflexivity|]. now rewrite Hst2. }
  destruct (merge_Reduce env merge (world p2)) as [e w'].
  inversion Hrun; subst; clear Hrun.
  rewrite existsb_app, Hf1. simpl. rewrite existsb_app, Hf2. simpl.
  split; [|now rewrite Hst2]. unfold failed. simpl. destruct err; reflexivity.
Qed.

Lemma createTiStore_failed (urls : string) (p p' : Proc World)
    (created : result Storage) (tr : list Event) :
  createTiStore env urls p = (created, p', tr) ->
  match created with Fail _ => true | Ok _ => false end =
  is_error (snd (flags_NewURLsValue env urls)) || existsb failed tr.
Proof.
  unfold createTiStore, bind, call, ret, store_Register. intros Hrun.
  destruct (flags_NewURLsValue env urls) as [urlv [e|]]; simpl.
  { now inversion Hrun; subst. }
  destruct (stores p !! "tikv").
  { now inversion Hrun; subst. }
  simpl in Hrun.
  destruct (store_New env _ _) as [[tiStore [e|]] w];
    now inversion Hrun; subst.
Qed.

Lemma getSnapshotMeta_failed (tiStore : Storage) (p p' : Proc World)
    (got : result (Meta Snapshot)) (tr : list Event) :
  getSnapshotMeta env tiStore p = (got, p', tr) ->
  match got with Fail _ => true | Ok _ => false end = existsb failed tr.
Proof.
  unfold getSnapshotMeta, bind, call, ret. intros Hrun.
  destruct (CurrentVersion env tiStore (world p)) as [[version [e|]] w].
  { now inversion Hrun; subst. }
  simpl in Hrun.
  destruct (GetSnapshot env tiStore version w) as [[snapshot [e|]] w'];
    now inversion Hrun; subst.
Qed.

Lemma existsb_failed_logged (jobs : list Job) :
  existsb failed (map EvLogIgnoreJob jobs) = false.
Proof. induction jobs as [|j jobs IH]; [reflexivity | exact IH]. Qed.

Lemma readHistoryDDLJobs_failed (tiStore : Storage) (beginTS : Z)
    (p p' : Proc World) (jobs : list Job) (err : option error)
    (tr : list Event) :
  readHistoryDDLJobs env tiStore beginTS p = ((jobs, err), p', tr) ->
  is_error err = existsb failed tr.
Proof.
  unfold readHistoryDDLJobs, bind, ret. intros Hrun.
  destruct (getSnapshotMeta env tiStore p) as [[got p1] tr1] eqn:Hmeta.
  apply getSnapshotMeta_failed in Hmeta.
  destruct got as [snapMeta|e].
  2:{ inversion Hrun; subst. now rewrite app_nil_r, <- Hmeta. }
  unfold call in Hrun.
  destruct (GetAllHistoryDDLJobs env snapMeta (world p1))
    as [[all [e|]] w]; simpl in Hrun.
  - inversion Hrun; subst. rewrite existsb_app, <- Hmeta. reflexivity.
  - rewrite selectJobs_run in Hrun. inversion Hrun; subst.
    rewrite existsb_app, <- Hmeta. simpl.
    now rewrite app_nil_r, existsb_failed_logged.
Qed.

(** [loadHistoryDDLJobs] returns an error exactly when the endpoints do
    not parse or a call answered with an error. *)
Lemma loadHistoryDDLJobs_failed (r : PITR) (beginTS : Z)
    (p p' : Proc World) (jobs : list Job) (err : option error)
    (tr : list Event) :
  loadHistoryDDLJobs env r beginTS p = ((jobs, err), p', tr) ->
  is_error err =
  is_error (snd (flags_NewURLsValue env (PDURLs (cfg r)))) ||
  existsb failed tr.
Proof.
  unfold loadHistoryDDLJobs, defer, bind, ret. intros Hrun.
  destruct (createTiStore env (PDURLs (cfg r)) p) as [[created p1] tr1]
    eqn:Hcreate.
  apply createTiStore_failed in Hcreate.
  destruct created as [tiStore|e].
  - destruct (readHistoryDDLJobs env tiStore beginTS p1)
      as [[[jobs1 e1] p2] tr2] eqn:Hread.
    apply readHistoryDDLJobs_failed in Hread.
    unfold call, store_UnRegister in Hrun. simpl in Hrun.
    inversion Hrun; subst; clear Hrun.
    symmetry in Hcreate. apply orb_false_iff in Hcreate as [-> Htr1].
    rewrite !existsb_app, Htr1, Hread. simpl. now rewrite orb_false_r.
  - inversion Hrun; subst. now rewrite app_nil_r.
Qed.

(** [fetchDDLBeforeStartTSO] returns an error when a call answered with
    one, and otherwise only when the store endpoints are the source and
    do not parse. *)
Lemma fetchDDLBeforeStartTSO_failed (r : PITR) (startTSO : Z)
    (p p' : Proc World) (h : historyDDLHandler) (err : option error)
    (tr : list Event) :
  fetchDDLBeforeStartTSO env r startTSO p = ((h, err), p', tr) ->
  (existsb failed tr = true -> is_error err = true) /\
  (is_error err = true ->
   existsb failed tr = true \/
   (schemaFile (cfg r) = EmptyString /\
    is_error (snd (flags_NewURLsValue env (PDURLs (cfg r)))) = true)).
Proof.
  unfold fetchDDLBeforeStartTSO, bind, ret. intros Hrun.
  destruct (String.length (schemaFile (cfg r)) =? 0)%nat eqn:Hfile;
    simpl in Hrun.
  - apply length_zero_empty in Hfile.
    destruct (negb (String.length (PDURLs (cfg r)) =? 0)%nat).
    2:{ inversion Hrun; subst. simpl. split; discriminate. }
    destruct (loadHistoryDDLJobs env r startTSO p) as [[[jobs e] p1] tr1]
      eqn:Hload.
    apply loadHistoryDDLJobs_failed in Hload.
    inversion Hrun; subst; clear Hrun. rewrite app_nil_r.
    assert (Herr : is_error (Trace (Annotate e "load history ddls")) =
                   is_error e) by now destruct e.
    rewrite Herr, Hload. split.
    + intros ->. apply orb_true_r.
    + intros H. apply orb_true_iff in H as [H|H]; [right | left]; auto.
  - destruct (LoadBaseSchema env r p) as [[[sqls e] p1] tr1] eqn:Hload.
    inversion Hrun; subst; clear Hrun.
    apply LoadBaseSchema_run in Hload as (content & e' & _ & -> & _ & -> & _).
    simpl. unfold failed. simpl.
    destruct e'; simpl; split; auto; discriminate.
Qed.
End Errors.

(** ** More on the state machine of [Process] *)

Lemma closes_app (l l' : list Event) :
  closes (l ++ l') = (closes l + closes l')%nat.
Proof. unfold closes. now rewrite List.filter_app, length_app. Qed.

Lemma closes_before_merge (l : list Event) :
  Forall (fun ev => before_merge ev = true) l -> closes l = 0%nat.
Proof.
  induction 1 as [|ev l Hev _ IH]; [reflexivity|].
  unfold closes in *. simpl.
  destruct ev; simpl; try exact IH. discriminate Hev.
Qed.

Lemma closes_catalog (l : list Event) :
  Forall (fun ev => component ev = Catalog) l -> closes l = 0%nat.
Proof.
  induction 1 as [|ev l Hev _ IH]; [reflexivity|].
  unfold closes in *. simpl.
  destruct ev; simpl; try exact IH. discriminate Hev.
Qed.

Lemma closes_mapReduce (startTSO stopTSO : Z) (err : option error)
    (run : list Event) :
  mapReduce_outcome startTSO stopTSO err run -> closes run = 0%nat.
Proof.
  intros [e _ Hcat _
         | e n pass1 _ -> Hcat _
         | msg pass1 _ -> Hcat _
         | e pass1 pass2 _ -> Hcat1 _ Hcat2 _
         | pass1 pass2 -> Hcat1 _ Hcat2 _].
  - now apply closes_catalog.
  - now rewrite closes_app, (closes_catalog _ Hcat).
  - now rewrite closes_app, (closes_catalog _ Hcat).
  - change (EvMap startTSO stopTSO false None :: pass2)
      with ([EvMap startTSO stopTSO false None] ++ pass2).
    now rewrite !closes_app, (closes_catalog _ Hcat1), (closes_catalog _ Hcat2).
  - change (EvMap startTSO stopTSO false None :: pass2 ++ [EvReduce err])
      with ([EvMap startTSO stopTSO false None] ++ pass2 ++ [EvReduce err]).
    now rewrite !closes_app, (closes_catalog _ Hcat1), (closes_catalog _ Hcat2).
Qed.

Lemma executions_mapReduce_bound (startTSO stopTSO : Z)
    (err : option error) (run : list Event) :
  mapReduce_outcome startTSO stopTSO err run ->
  (forall e, In (EvReduce e) run ->
     err = e /\ executions run = 2%nat /\
     exists middle, run = middle ++ [EvReduce e] /\
       In (EvMap startTSO stopTSO false None) middle).
Proof.
  intros [e0 _ Hcat _
         | e0 n pass1 _ -> Hcat _
         | msg pass1 _ -> Hcat _
         | e0 pass1 pass2 _ -> Hcat1 _ Hcat2 _
         | pass1 pass2 -> Hcat1 Hex1 Hcat2 Hex2]; intros e Hin.
  - apply (In_component _ _ _ Hcat) in Hin. discriminate Hin.
  - apply in_app_or in Hin as [Hin|[Hin|[]]]; [|discriminate Hin].
    apply (In_component _ _ _ Hcat) in Hin. discriminate Hin.
  - apply in_app_or in Hin as [Hin|[Hin|[Hin|[]]]]; try discriminate Hin.
    apply (In_component _ _ _ Hcat) in Hin. discriminate Hin.
  - apply in_app_or in Hin as [Hin|[Hin|Hin]]; [|discriminate Hin|].
    + apply (In_component _ _ _ Hcat1) in Hin. discriminate Hin.
    + apply (In_component _ _ _ Hcat2) in Hin. discriminate Hin.
  - apply in_app_or in Hin as [Hin|[Hin|Hin]]; [|discriminate Hin|].
    { apply (In_component _ _ _ Hcat1) in Hin. discriminate Hin. }
    apply in_app_or in Hin as [Hin|[Hin|[]]].
    { apply (In_component _ _ _ Hcat2) in Hin. discriminate Hin. }
    inversion Hin; subst. split; [reflexivity|]. split.
    + change (EvMap startTSO stopTSO false None :: pass2 ++ [EvReduce e])
        with ([EvMap startTSO stopTSO false None] ++ pass2 ++ [EvReduce e]).
      rewrite !executions_app, Hex1, Hex2. reflexivity.
    + exists (pass1 ++ EvMap startTSO stopTSO false None :: pass2). split.
      * rewrite <- app_assoc. reflexivity.
      * apply in_or_app. right. now left.
Qed.

Lemma mapReduce_outcome_window (startTSO stopTSO : Z) (err : option error)
    (run : list Event) (s t : Z) (n : bool) (e : option error) :
  mapReduce_outcome startTSO stopTSO err run ->
  In (EvMap s t n e) run -> s = startTSO /\ t = stopTSO.
Proof.
  intros [e0 _ Hcat _
         | e0 n0 pass1 _ -> Hcat _
         | msg pass1 _ -> Hcat _
         | e0 pass1 pass2 _ -> Hcat1 _ Hcat2 _
         | pass1 pass2 -> Hcat1 _ Hcat2 _]; intros Hin.
  - apply (In_component _ _ _ Hcat) in Hin. discriminate Hin.
  - apply in_app_or in Hin as [Hin|[Hin|[]]]; [|now inversion Hin].
    apply (In_component _ _ _ Hcat) in Hin. discriminate Hin.
  - apply in_app_or in Hin as [Hin|[Hin|[Hin|[]]]];
      [|now inversion Hin|discriminate Hin].
    apply (In_component _ _ _ Hcat) in Hin. discriminate Hin.
  - apply in_app_or in Hin as [Hin|[Hin|Hin]]; [|now inversion Hin|].
    + apply (In_component _ _ _ Hcat1) in Hin. discriminate Hin.
    + apply (In_component _ _ _ Hcat2) in Hin. discriminate Hin.
  - apply in_app_or in Hin as [Hin|[Hin|Hin]]; [|now inversion Hin|].
    { apply (In_component _ _ _ Hcat1) in Hin. discriminate Hin. }
    apply in_app_or in Hin as [Hin|[Hin|[]]]; [|discriminate Hin].
    apply (In_component _ _ _ Hcat2) in Hin. discriminate Hin.
Qed.

(** The calls of lines 97-111 go to the catalog, the merge and the log. *)
Lemma mapReduce_outcome_components (startTSO stopTSO : Z)
    (err : option error) (run : list Event) :
  mapReduce_outcome startTSO stopTSO err run ->
  Forall (fun ev => component ev = Catalog \/ component ev = MergeEngine \/
                    component ev = Logger) run.
Proof.
  assert (Hcatalog : forall l, Forall (fun ev => component ev = Catalog) l ->
            Forall (fun ev => component ev = Catalog \/
                              component ev = MergeEngine \/
                              component ev = Logger) l).
  { intros l Hl. eapply List.Forall_impl; [|exact Hl]. simpl. now left. }
  intros [e _ Hcat _
         | e n pass1 _ -> Hcat _
         | msg pass1 _ -> Hcat _
         | e pass1 pass2 _ -> Hcat1 _ Hcat2 _
         | pass1 pass2 -> Hcat1 _ Hcat2 _];
    rewrite ?Forall_app; repeat split; auto;
    repeat (constructor; [simpl; tauto|]); auto;
    rewrite ?Forall_app; repeat split; auto;
    repeat (constructor; [simpl; tauto|]); auto.
Qed.

Section ProcessStages.
Context {World Storage Version Snapshot Merge : Type}.
Context (env : Collaborators World Storage Version Snapshot Merge).
Context {sorter : SliceSorter}.

(** The calls of [fetchDDLBeforeStartTSO] go to the schema file, the
    store and the log. *)
Lemma fetchDDLBeforeStartTSO_components (r : PITR) (startTSO : Z)
    (p p' : Proc World) (h : historyDDLHandler) (err : option error)
    (tr : list Event) :
  fetchDDLBeforeStartTSO env r startTSO p = ((h, err), p', tr) ->
  Forall (fun ev => component ev = SchemaFile \/
                    component ev = StoreCluster \/
                    component ev = Logger) tr.
Proof.
  unfold fetchDDLBeforeStartTSO, bind, ret. intros Hrun.
  destruct (negb (String.length (schemaFile (cfg r)) =? 0)%nat).
  - destruct (LoadBaseSchema env r p) as [[[sqls e] p1] tr1] eqn:Hload.
    inversion Hrun; subst; clear Hrun.
    apply LoadBaseSchema_run in Hload as (content & e' & _ & -> & _).
    repeat constructor.
  - destruct (negb (String.length (PDURLs (cfg r)) =? 0)%nat).
    + destruct (loadHistoryDDLJobs env r startTSO p) as [[[jobs e] p1] tr1]
        eqn:Hload.
      inversion Hrun; subst; clear Hrun. rewrite app_nil_r.
      apply loadHistoryDDLJobs_run in Hload as [_ Hev].
      eapply List.Forall_impl; [|exact Hev]. simpl. tauto.
    + inversion Hrun; subst. constructor.
Qed.

(** The stages of a run of [Process].  Either it ends among the calls to
    the shards; or the shards are found and filtered, the start timestamp
    is settled, [fetchDDLBeforeStartTSO] runs, and then the run ends with
    its error, or with that of [NewMerge], or with lines 97-111 followed
    by [merge.Close]. *)
Lemma Process_stages (r : PITR) (p p' : Proc World) (err : option error)
    (tr : list Event) :
  Process env r p = (err, p', tr) ->
  (Forall (fun ev => component ev = Shards) tr /\
   stores p' = stores p /\ existsb failed tr = is_error err) \/
  exists found file0 kept fileSize startTSO p3 h e p4 fetched rest,
    fetchDDLBeforeStartTSO env r startTSO p3 = ((h, e), p4, fetched) /\
    tr = EvSearchFiles (Dir (cfg r)) found None ::
         EvFilterFiles found (StartTSO (cfg r)) (StopTSO (cfg r))
           (file0 :: kept) fileSize None ::
         (if StartTSO (cfg r) =? 0
          then [EvGetFirstBinlogCommitTS file0 startTSO None]
          else []) ++ fetched ++ rest /\
    (StartTSO (cfg r) <> 0 -> startTSO = StartTSO (cfg r)) /\
    stores p3 = stores p /\
    ((is_error e = true /\ rest = [] /\ err = Trace e /\ p' = p4) \/
     (e = None /\ stores p' = stores p4 /\
      exists en,
        rest = [EvNewMerge (file0 :: kept) fileSize (Some en)] /\
        err = Some (ErrTrace en)) \/
     (e = None /\
      exists merge p5 p6 run,
        stores p5 = stores p4 /\ stores p' = stores p6 /\
        mapReduce env r merge startTSO h p5 = (err, p6, run) /\
        rest = EvNewMerge (file0 :: kept) fileSize None :: run ++
               [EvMergeClose (reserveTempDir (cfg r))])).
Proof.
  unfold Process, defer, bind, call, ret. intros Hrun.
  destruct (searchFiles env (Dir (cfg r)) (world p)) as [[files [e|]] w1];
    simpl in Hrun.
  { inversion Hrun; subst. left. repeat split. repeat constructor. }
  destruct (length files =? 0)%nat; simpl in Hrun.
  { inversion Hrun; subst. left. repeat split. repeat constructor. }
  destruct (filterFiles env files (StartTSO (cfg r)) (StopTSO (cfg r)) w1)
    as [[[kept fileSize] [e|]] w2]; simpl in Hrun.
  { inversion Hrun; subst. left. repeat split. repeat constructor. }
  destruct kept as [|file0 kept].
  { inversion Hrun; subst. left. repeat split. repeat constructor. }
  destruct (StartTSO (cfg r) =? 0) eqn:Hzero; simpl in Hrun.
  - destruct (getFirstBinlogCommitTSAndFileSize env file0 w2)
      as [[[ts sz] [e|]] w3]; simpl in Hrun.
    { inversion Hrun; subst. left. repeat split. repeat constructor. }
    destruct (fetchDDLBeforeStartTSO env r ts _) as [[[h e] p4] fetched]
      eqn:Hfetch in Hrun.
    right.
    exists files, file0, kept, fileSize, ts, (mkProc w3 (stores p)), h, e, p4,
      fetched.
    destruct e as [e|].
    { inversion Hrun; subst; clear Hrun. exists [].
      split; [exact Hfetch|].
      split; [simpl; rewrite ?app_nil_r; reflexivity|]. split; [apply Z.eqb_eq in Hzero; lia|].
      split; [reflexivity|]. left. now repeat split. }
    destruct (NewMerge env (file0 :: kept) fileSize (world p4))
      as [[merge [e|]] w5]; simpl in Hrun.
    { inversion Hrun; subst; clear Hrun.
      exists [EvNewMerge (file0 :: kept) fileSize (Some e)].
      split; [exact Hfetch|].
      split; [simpl; rewrite ?app_nil_r; reflexivity|]. split; [apply Z.eqb_eq in Hzero; lia|].
      split; [reflexivity|]. right. left.
      split; [reflexivity|]. split; [reflexivity|]. now exists e. }
    destruct (mapReduce env r merge ts h _) as [[e p6] run] eqn:Hmr in Hrun.
    inversion Hrun; subst; clear Hrun.
    exists (EvNewMerge (file0 :: kept) fileSize None :: run ++
            [EvMergeClose (reserveTempDir (cfg r))]).
    split; [exact Hfetch|].
    split; [simpl; rewrite ?app_nil_r; reflexivity|]. split; [apply Z.eqb_eq in Hzero; lia|].
    split; [reflexivity|]. right. right. split; [reflexivity|].
    eexists merge, _, p6, run. split; [|split; [|split; [exact Hmr|]]];
      reflexivity.
  - destruct (fetchDDLBeforeStartTSO env r (StartTSO (cfg r)) _)
      as [[[h e] p4] fetched] eqn:Hfetch in Hrun.
    right.
    exists files, file0, kept, fileSize, (StartTSO (cfg r)),
      (mkProc w2 (stores p)), h, e, p4, fetched.
    destruct e as [e|].
    { inversion Hrun; subst; clear Hrun. exists [].
      split; [exact Hfetch|].
      split; [simpl; rewrite ?app_nil_r; reflexivity|]. split; [reflexivity|].
      split; [reflexivity|]. left. now repeat split. }
    destruct (NewMerge env (file0 :: kept) fileSize (world p4))
      as [[merge [e|]] w5]; simpl in Hrun.
    { inversion Hrun; subst; clear Hrun.
      exists [EvNewMerge (file0 :: kept) fileSize (Some e)].
      split; [exact Hfetch|].
      split; [simpl; rewrite ?app_nil_r; reflexivity|]. split; [reflexivity|].
      split; [reflexivity|]. right. left.
      split; [reflexivity|]. split; [reflexivity|]. now exists e. }
    destruct (mapReduce env r merge (StartTSO (cfg r)) h _)
      as [[e p6] run] eqn:Hmr in Hrun.
    inversion Hrun; subst; clear Hrun.
    exists (EvNewMerge (file0 :: kept) fileSize None :: run ++
            [EvMergeClose (reserveTempDir (cfg r))]).
    split; [exact Hfetch|].
    split; [simpl; rewrite ?app_nil_r; reflexivity|]. split; [reflexivity|].
    split; [reflexivity|]. right. right. split; [reflexivity|].
    eexists merge, _, p6, run. split; [|split; [|split; [exact Hmr|]]];
      reflexivity.
Qed.
End ProcessStages.

Section MoreProcess.
Context {World Storage Version Snapshot Merge : Type}.
Context (env : Collaborators World Storage Version Snapshot Merge).
Context {sorter : SliceSorter}.

(** [merge.Close] is called once, as the last call, in every run in which
    [NewMerge] gave a merge, whatever lines 97-111 return; in a run in
    which it gave none, [merge.Close] is not called and [execute] is not
    entered. *)
Theorem Process_closes_merge_once (r : PITR) (p p' : Proc World)
    (err : option error) (tr : list Event) :
  Process env r p = (err, p', tr) ->
  (forall files fileSize,
     In (EvNewMerge files fileSize None) tr ->
     closes tr = 1%nat /\
     exists pre, tr = pre ++ [EvMergeClose (reserveTempDir (cfg r))]) /\
  ((forall files fileSize, ~ In (EvNewMerge files fileSize None) tr) ->
   closes tr = 0%nat /\ executions tr = 0%nat).
Proof.
  intros Hrun. apply Process_run in Hrun.
  destruct Hrun as [Hpre | pre files fileSize e _ -> Hpre
                   | pre run files fileSize start -> Hpre Hout].
  - split.
    + intros files fileSize Hin.
      apply (In_before_merge _ _ Hpre) in Hin. discriminate Hin.
    + intros _. split;
        [now apply closes_before_merge | now apply executions_before_merge].
  - split.
    + intros files' fileSize' Hin.
      apply in_app_or in Hin as [Hin|[Hin|[]]]; [|discriminate Hin].
      apply (In_before_merge _ _ Hpre) in Hin. discriminate Hin.
    + intros _. rewrite closes_app, executions_app.
      rewrite (closes_before_merge _ Hpre), (executions_before_merge _ Hpre).
      split; reflexivity.
  - split.
    + intros _ _ _. split.
      * change (EvNewMerge files fileSize None :: run ++
                [EvMergeClose (reserveTempDir (cfg r))])
          with ([EvNewMerge files fileSize None] ++ run ++
                [EvMergeClose (reserveTempDir (cfg r))]).
        rewrite !closes_app, (closes_before_merge _ Hpre),
          (closes_mapReduce _ _ _ _ Hout).
        reflexivity.
      * exists (pre ++ EvNewMerge files fileSize None :: run).
        rewrite <- app_assoc. reflexivity.
    + intros Hno. exfalso. apply (Hno files fileSize).
      apply in_or_app. right. now left.
Qed.

(** When [Reduce] is called, [Process] returns what [Reduce] returned;
    [execute] has been entered twice by then, once before and once after
    a [Map] that found events, and [Reduce] is followed by [merge.Close]
    only. *)
Theorem Process_returns_what_Reduce_returns (r : PITR) (p p' : Proc World)
    (err e : option error) (tr : list Event) :
  Process env r p = (err, p', tr) ->
  In (EvReduce e) tr ->
  err = e /\
  executions tr = 2%nat /\
  exists pre startTSO,
    tr = pre ++ [EvReduce e; EvMergeClose (reserveTempDir (cfg r))] /\
    In (EvMap startTSO (StopTSO (cfg r)) false None) pre.
Proof.
  intros Hrun Hin. apply Process_run in Hrun.
  destruct Hrun as [Hpre | pre files fileSize e0 _ -> Hpre
                   | pre run files fileSize start -> Hpre Hout].
  - apply (In_before_merge _ _ Hpre) in Hin. discriminate Hin.
  - apply in_app_or in Hin as [Hin|[Hin|[]]]; [|discriminate Hin].
    apply (In_before_merge _ _ Hpre) in Hin. discriminate Hin.
  - apply in_app_or in Hin as [Hin|[Hin|Hin]]; [|discriminate Hin|].
    { apply (In_before_merge _ _ Hpre) in Hin. discriminate Hin. }
    apply in_app_or in Hin as [Hin|[Hin|[]]]; [|discriminate Hin].
    destruct (executions_mapReduce_bound _ _ _ _ Hout e Hin)
      as (-> & Hex & middle & -> & Hmap).
    split; [reflexivity|]. split.
    + change (EvNewMerge files fileSize None ::
                (middle ++ [EvReduce e]) ++
                [EvMergeClose (reserveTempDir (cfg r))])
        with ([EvNewMerge files fileSize None] ++
                (middle ++ [EvReduce e]) ++
                [EvMergeClose (reserveTempDir (cfg r))]).
      rewrite !executions_app in *.
      rewrite (executions_before_merge _ Hpre).
      unfold executions in *. simpl in *. lia.
    + exists (pre ++ EvNewMerge files fileSize None :: middle), start. split.
      * repeat (rewrite <- app_assoc; simpl). reflexivity.
      * apply in_or_app. right. now right.
Qed.

(** The window handed to [Map]: its stop is the configured one; its start
    is the configured one when that is not 0, and then the first commit
    timestamp of no shard is read; when it is 0, the start is the first
    commit timestamp read from the first shard that [filterFiles] kept. *)
Theorem Process_map_window (r : PITR) (p p' : Proc World)
    (err e : option error) (tr : list Event) (s t : Z) (n : bool) :
  Process env r p = (err, p', tr) ->
  In (EvMap s t n e) tr ->
  t = StopTSO (cfg r) /\
  (StartTSO (cfg r) <> 0 ->
   s = StartTSO (cfg r) /\
   forall file ts e', ~ In (EvGetFirstBinlogCommitTS file ts e') tr) /\
  (StartTSO (cfg r) = 0 ->
   exists found file0 kept fileSize,
     In (EvFilterFiles found 0 (StopTSO (cfg r)) (file0 :: kept) fileSize
           None) tr /\
     In (EvGetFirstBinlogCommitTS file0 s None) tr).
Proof.
  intros Hrun Hin.
  destruct (Process_stages env r p p' err tr Hrun)
    as [(Hsh & _) | (found & file0 & kept & fileSize & startTSO & p3 & h &
                     e0 & p4 & fetched & rest & Hfetch & -> & Hstart & _ &
                     Hrest)].
  { apply (In_component _ _ _ Hsh) in Hin. discriminate Hin. }
  pose proof (fetchDDLBeforeStartTSO_components env _ _ _ _ _ _ _ Hfetch)
    as Hfc.
  assert (Hnf : forall ev, component ev = Shards \/
                           component ev = MergeEngine -> ~ In ev fetched).
  { intros ev Hev Hf. rewrite List.Forall_forall in Hfc.
    apply Hfc in Hf. destruct Hev as [Hev|Hev]; rewrite Hev in Hf;
      intuition discriminate. }
  assert (Hrun' : exists merge p5 p6 run,
             mapReduce env r merge startTSO h p5 = (err, p6, run) /\
             rest = EvNewMerge (file0 :: kept) fileSize None :: run ++
                    [EvMergeClose (reserveTempDir (cfg r))] /\
             In (EvMap s t n e) run).
  { destruct Hin as [Hin|[Hin|Hin]]; try discriminate Hin.
    apply in_app_or in Hin as [Hin|Hin].
    { destruct (StartTSO (cfg r) =? 0); [|destruct Hin].
      destruct Hin as [Hin|[]]. discriminate Hin. }
    apply in_app_or in Hin as [Hin|Hin].
    { exfalso. apply (Hnf (EvMap s t n e)); [now right | exact Hin]. }
    destruct Hrest as [(_ & -> & _) | [(_ & _ & en & -> & _)
                      | (_ & merge & p5 & p6 & run & _ & _ & Hmr & ->)]].
    - destruct Hin.
    - destruct Hin as [Hin|[]]. discriminate Hin.
    - exists merge, p5, p6, run. split; [exact Hmr|]. split; [reflexivity|].
      destruct Hin as [Hin|Hin]; [discriminate Hin|].
      apply in_app_or in Hin as [Hin|[Hin|[]]]; [exact Hin|discriminate Hin]. }
  destruct Hrun' as (merge & p5 & p6 & run & Hmr & -> & Hmap).
  apply mapReduce_run in Hmr.
  destruct (mapReduce_outcome_window _ _ _ _ _ _ _ _ Hmr Hmap) as [-> ->].
  pose proof (mapReduce_outcome_components _ _ _ _ Hmr) as Hrc.
  split; [reflexivity|]. split.
  - intros Hset. split; [now apply Hstart|].
    intros file ts e' Hg.
    destruct (StartTSO (cfg r) =? 0) eqn:Hzero;
      [apply Z.eqb_eq in Hzero; contradiction|].
    simpl in Hg. destruct Hg as [Hg|[Hg|Hg]]; try discriminate Hg.
    apply in_app_or in Hg as [Hg|[Hg|Hg]]; [|discriminate Hg|].
    + apply (Hnf (EvGetFirstBinlogCommitTS file ts e'));
        [now left | exact Hg].
    + apply in_app_or in Hg as [Hg|[Hg|[]]]; [|discriminate Hg].
      rewrite List.Forall_forall in Hrc. apply Hrc in Hg.
      simpl in Hg. intuition discriminate.
  - intros Hzero. exists found, file0, kept, fileSize. rewrite Hzero. simpl.
    split; [right; now left | right; right; now left].
Qed.

(** No error that [pitr.go] reads is lost: when a call answered with an
    error, [Process] returns an error; and when [Process] returns an
    error, a call answered with one, or the store endpoints are the
    source of the schema history and do not parse. *)
Theorem Process_error_origin (r : PITR) (p p' : Proc World)
    (err : option error) (tr : list Event) :
  Process env r p = (err, p', tr) ->
  (existsb failed tr = true -> is_error err = true) /\
  (is_error err = true ->
   existsb failed tr = true \/
   (schemaFile (cfg r) = EmptyString /\
    is_error (snd (flags_NewURLsValue env (PDURLs (cfg r)))) = true)).
Proof.
  intros Hrun.
  destruct (Process_stages env r p p' err tr Hrun)
    as [(_ & _ & Heq) | (found & file0 & kept & fileSize & startTSO & p3 &
                         h & e0 & p4 & fetched & rest & Hfetch & -> & _ & _ &
                         Hrest)].
  { rewrite Heq. split; [auto | now left]. }
  apply fetchDDLBeforeStartTSO_failed in Hfetch as [Hf1 Hf2].
  assert (Heq : existsb failed
                  (EvSearchFiles (Dir (cfg r)) found None ::
                   EvFilterFiles found (StartTSO (cfg r)) (StopTSO (cfg r))
                     (file0 :: kept) fileSize None ::
                   (if StartTSO (cfg r) =? 0
                    then [EvGetFirstBinlogCommitTS file0 startTSO None]
                    else []) ++ fetched ++ rest) =
                existsb failed fetched || existsb failed rest).
  { simpl. rewrite !existsb_app. now destruct (StartTSO (cfg r) =? 0). }
  rewrite Heq. clear Heq.
  destruct Hrest as [(He & -> & -> & _) | [(-> & _ & en & -> & ->)
                    | (-> & merge & p5 & p6 & run & _ & _ & Hmr & ->)]].
  - assert (Herr : is_error (Trace e0) = true) by now destruct e0.
    rewrite Herr, orb_false_r. split; [reflexivity|]. intros _. now apply Hf2.
  - simpl. split; [reflexivity|]. intros _. left. apply orb_true_r.
  - apply mapReduce_failed in Hmr as [Hmr _].
    assert (Heq : existsb failed
                    (EvNewMerge (file0 :: kept) fileSize None :: run ++
                     [EvMergeClose (reserveTempDir (cfg r))]) =
                  is_error err).
    { simpl. rewrite existsb_app, Hmr. simpl. now rewrite orb_false_r. }
    rewrite Heq.
    destruct (existsb failed fetched) eqn:Hff.
    { specialize (Hf1 eq_refl). discriminate Hf1. }
    simpl. split; [auto | now left].
Qed.
Lemma fetchDDLBeforeStartTSO_from_file (r : PITR) (startTSO : Z)
    (p p' : Proc World) (h : historyDDLHandler) (err : option error)
    (tr : list Event) :
  schemaFile (cfg r) <> EmptyString ->
  fetchDDLBeforeStartTSO env r startTSO p = ((h, err), p', tr) ->
  stores p' = stores p /\
  Forall (fun ev => component ev = SchemaFile) tr.
Proof.
  intros Hfile. unfold fetchDDLBeforeStartTSO, bind, ret. intros Hrun.
  destruct (String.length (schemaFile (cfg r)) =? 0)%nat eqn:Hlen.
  { apply length_zero_empty in Hlen. contradiction. }
  simpl in Hrun.
  destruct (LoadBaseSchema env r p) as [[[sqls e] p1] tr1] eqn:Hload.
  inversion Hrun; subst; clear Hrun.
  apply LoadBaseSchema_run in Hload as (content & e' & _ & -> & Hst & _).
  split; [exact Hst | repeat constructor].
Qed.

(** With a schema file configured, a run of [Process] makes no call to
    the store, whatever the store endpoints are, and leaves the driver
    registry as it found it. *)
Theorem Process_with_schema_file_leaves_store (r : PITR)
    (p p' : Proc World) (err : option error) (tr : list Event) :
  schemaFile (cfg r) <> EmptyString ->
  Process env r p = (err, p', tr) ->
  stores p' = stores p /\
  Forall (fun ev => component ev <> StoreCluster) tr.
Proof.
  intros Hfile Hrun.
  destruct (Process_stages env r p p' err tr Hrun)
    as [(Hsh & Hst & _) | (found & file0 & kept & fileSize & startTSO & p3 &
                           h & e0 & p4 & fetched & rest & Hfetch & -> & _ &
                           Hst3 & Hrest)].
  { split; [exact Hst|]. eapply List.Forall_impl; [|exact Hsh]. simpl.
    intros ev ->. discriminate. }
  apply (fetchDDLBeforeStartTSO_from_file _ _ _ _ _ _ _ Hfile) in Hfetch
    as [Hst4 Hfc].
  assert (Hhead : forall l,
             Forall (fun ev => component ev <> StoreCluster) l ->
             Forall (fun ev => component ev <> StoreCluster)
               (EvSearchFiles (Dir (cfg r)) found None ::
                EvFilterFiles found (StartTSO (cfg r)) (StopTSO (cfg r))
                  (file0 :: kept) fileSize None ::
                (if StartTSO (cfg r) =? 0
                 then [EvGetFirstBinlogCommitTS file0 startTSO None]
                 else []) ++ fetched ++ l)).
  { intros l Hl. constructor; [discriminate|]. constructor; [discriminate|].
    rewrite !Forall_app. split; [|split; [|exact Hl]].
    - destruct (StartTSO (cfg r) =? 0); repeat constructor. discriminate.
    - eapply List.Forall_impl; [|exact Hfc]. simpl. intros ev ->.
      discriminate. }
  destruct Hrest as [(_ & -> & _ & ->) | [(_ & Hst & en & -> & _)
                    | (_ & merge & p5 & p6 & run & Hst5 & Hst & Hmr & ->)]].
  - split; [now rewrite Hst4 | apply Hhead; constructor].
  - split; [now rewrite Hst, Hst4|]. apply Hhead.
    repeat constructor. discriminate.
  - pose proof (mapReduce_outcome_components _ _ _ _
                  (mapReduce_run env _ _ _ _ _ _ _ _ Hmr)) as Hrc.
    apply mapReduce_failed in Hmr as [_ Hst6].
    split; [now rewrite Hst, Hst6, Hst5, Hst4|]. apply Hhead.
    constructor; [discriminate|]. rewrite Forall_app. split.
    + eapply List.Forall_impl; [|exact Hrc]. simpl.
      intros ev [-> | [-> | ->]]; discriminate.
    + repeat constructor. discriminate.
Qed.

(** When the handler holds jobs they are all [execute] applies: one call
    of [ExecuteHistoryDDLs] with the whole list, whose answer is returned,
    and no statement goes to [ExecuteDDL], even if the handler holds
    statements too. *)
Theorem execute_jobs_before_statements (h : historyDDLHandler)
    (q q' : Proc World) (err : option error) (tr : list Event) :
  ddlJobs h <> [] ->
  execute env h q = (err, q', tr) ->
  tr = [EvExecute h; EvExecuteHistoryDDLs (ddlJobs h) err] /\
  err = fst (ExecuteHistoryDDLs env (ddlJobs h) (world q)) /\
  world q' = snd (ExecuteHistoryDDLs env (ddlJobs h) (world q)).
Proof.
  intros Hjobs Hrun. unfold execute, bind, emit, call in Hrun.
  destruct (ddlJobs h) as [|job jobs]; [contradiction|]. simpl in Hrun.
  destruct (ExecuteHistoryDDLs env (job :: jobs) (world q)) as [e w].
  inversion Hrun; subst. now repeat split.
Qed.
End MoreProcess.

Lemma Process_closes_merge_once_witness :
  (forall files fileSize,
     In (EvNewMerge files fileSize None) trace_refused ->
     closes trace_refused = 1%nat /\
     exists pre, trace_refused = pre ++ [EvMergeClose false]) /\
  ((forall files fileSize, ~ In (EvNewMerge files fileSize None) trace_refused)
   -> closes trace_refused = 0%nat /\ executions trace_refused = 0%nat).
Proof.
  apply (Process_closes_merge_once (sorter := insertionSorter)
           (scripted script_refusing) withFile fresh fresh
           (Some (ErrNew "refused")) trace_refused).
  reflexivity.
Defined.

Lemma Process_returns_what_Reduce_returns_witness :
  (None : option error) = None /\
  executions trace_reduced = 2%nat /\
  exists pre startTSO,
    trace_reduced = pre ++ [EvReduce None; EvMergeClose false] /\
    In (EvMap startTSO 26 false None) pre.
Proof.
  apply (Process_returns_what_Reduce_returns (sorter := insertionSorter)
           (scripted script_one_statement) withFile fresh
           (mkProc ["create table a (x int);"; "create table a (x int);"] ∅)).
  - reflexivity.
  - unfold trace_reduced. simpl. tauto.
Defined.

Lemma Process_map_window_witness :
  26 = StopTSO (cfg withFile) /\
  (StartTSO (cfg withFile) <> 0 ->
   12 = StartTSO (cfg withFile) /\
   forall file ts e',
     ~ In (EvGetFirstBinlogCommitTS file ts e') trace_reduced) /\
  (StartTSO (cfg withFile) = 0 ->
   exists found file0 kept fileSize,
     In (EvFilterFiles found 0 (StopTSO (cfg withFile)) (file0 :: kept)
           fileSize None) trace_reduced /\
     In (EvGetFirstBinlogCommitTS file0 12 None) trace_reduced).
Proof.
  apply (Process_map_window (sorter := insertionSorter)
           (scripted script_one_statement) withFile fresh
           (mkProc ["create table a (x int);"; "create table a (x int);"] ∅)
           None None trace_reduced 12 26 false).
  - reflexivity.
  - unfold trace_reduced. simpl. tauto.
Defined.

Lemma Process_error_origin_witness :
  (existsb failed trace_refused = true ->
   is_error (Some (ErrNew "refused")) = true) /\
  (is_error (Some (ErrNew "refused")) = true ->
   existsb failed trace_refused = true \/
   (schemaFile (cfg withFile) = EmptyString /\
    is_error (snd (flags_NewURLsValue (scripted script_refusing)
                     (PDURLs (cfg withFile)))) = true)).
Proof.
  apply (Process_error_origin (sorter := insertionSorter)
           (scripted script_refusing) withFile fresh fresh).
  reflexivity.
Defined.

Lemma Process_with_schema_file_leaves_store_witness :
  stores (mkProc
            ["create table a (x int);"; "create table a (x int);"] ∅) =
  stores fresh /\
  Forall (fun ev => component ev <> StoreCluster) trace_reduced.
Proof.
  apply (Process_with_schema_file_leaves_store (sorter := insertionSorter)
           (scripted script_one_statement) withBoth fresh _ None).
  - discriminate.
  - reflexivity.
Defined.

(** A handler holding both: only the jobs are applied. *)
Lemma execute_jobs_before_statements_witness :
  [EvExecute (mkHandler ["create table c (z int);"] [job_v1; job_v5]);
   EvExecuteHistoryDDLs [job_v1; job_v5] None] =
  [EvExecute (mkHandler ["create table c (z int);"] [job_v1; job_v5]);
   EvExecuteHistoryDDLs
     (ddlJobs (mkHandler ["create table c (z int);"] [job_v1; job_v5])) None] /\
  None =
  fst (ExecuteHistoryDDLs (scripted script0)
         (ddlJobs (mkHandler ["create table c (z int);"] [job_v1; job_v5]))
         (world fresh)) /\
  ["create database d"; "create table a (x int)"] =
  snd (ExecuteHistoryDDLs (scripted script0)
         (ddlJobs (mkHandler ["create table c (z int);"] [job_v1; job_v5]))
         (world fresh)).
Proof.
  apply (execute_jobs_before_statements (scripted script0)
           (mkHandler ["create table c (z int);"] [job_v1; job_v5]) fresh
           (mkProc ["create database d"; "create table a (x int)"] ∅)).
  - discriminate.
  - reflexivity.
Defined.
